(** * Video streaming application: the persisted data model

    A shallow embedding of [stream/video/models.py] and
    [stream/users/models.py] (Django models) and of the ingestion state
    machine that the specification builds on top of the [status] /
    [processing_progress] / [published_at] columns.

    - Part I embeds the schema as the source declares it: the two
      [TextChoices] enumerations, the column declarations with their
      defaults and what [full_clean()] and [save()] make of them, the
      [unique_together] constraints and the [on_delete=CASCADE] keys as
      the database enforces them on every write.
    - Part II is the Ingestion Coordinator.  The repository holds no code
      for it (the source is schema only); it is modelled from the
      specification, section 4.3, and every definition of that part says
      so.
    - Parts III to V are the properties: the constrained tables and the
      Coordinator, the rest of the schema, and validating and saving a
      video. *)

From Stdlib Require Import ZArith NArith List String Ascii Bool Lia.
From Stdlib Require Import DecimalString.
From Stdlib Require Import Sorted Permutation.
Import ListNotations.

Local Open Scope string_scope.
Local Open Scope Z_scope.

(* ===================================================================== *)
(** * Part I. The schema of [stream/video/models.py]                      *)
(* ===================================================================== *)

(** ** Column declarations

    A [str] of the source is a [string] here, one [ascii] per character
    (text outside the 256 characters of [ascii] is outside the model), so
    [String.length] counts characters as [max_length] does.

    What a [models.CharField(...)] / [models.TextField(...)] declaration
    carries, and the check [Field.clean] runs on a candidate value:
    the length bound, membership in [choices] when choices are declared,
    and non-emptiness unless [blank=True]. *)

Record CharField : Type := mkCharField {
  max_length : option nat;
  choices : list (string * string);
  blank : bool;
  default : option string
}.

Definition in_choices (cs : list (string * string)) (s : string) : bool :=
  existsb (String.eqb s) (map fst cs).

Definition CharField_clean (f : CharField) (s : string) : bool :=
  match max_length f with
  | Some n => (String.length s <=? n)%nat
  | None => true
  end
  && match choices f with
     | [] => true
     | cs => in_choices cs s
     end
  && (blank f || negb (String.eqb s "")).

(** What the source leaves to the project's settings: the database
    backend.  Django asks it for the range of an integer column
    ([connection.ops.integer_field_range(internal_type)]); a backend checks
    the length of a [varchar(n)] value or does not; a [DurationField] is a
    native interval or a 64-bit count of microseconds. *)
Inductive InternalType : Type :=
| IntegerType
| BigIntegerType.

Record Backend : Type := mkBackend {
  integer_field_range : InternalType -> Z * Z;
  checks_max_length : bool;
  has_native_duration_field : bool
}.

Definition IntegerField_range : Z * Z := (-2147483648, 2147483647).
Definition BigIntegerField_range : Z * Z :=
  (-9223372036854775808, 9223372036854775807).

(** Two of the backends Django ships: SQLite, the one a new project is
    set up with, holds every integer column in 64 bits and checks no
    length; PostgreSQL holds an [IntegerField] in 32 bits and refuses a
    value longer than its column. *)
Definition sqlite3 : Backend :=
  {| integer_field_range := fun _ => BigIntegerField_range;
     checks_max_length := false;
     has_native_duration_field := false |}.

Definition postgresql : Backend :=
  {| integer_field_range :=
       fun t => match t with
                | IntegerType => IntegerField_range
                | BigIntegerType => BigIntegerField_range
                end;
     checks_max_length := true;
     has_native_duration_field := true |}.

Definition in_range (r : Z * Z) (n : Z) : bool :=
  (fst r <=? n) && (n <=? snd r).

(** [models.IntegerField(...)] / [models.BigIntegerField(...)]: Django
    checks a value against the range the backend reports for the column
    type, with built-in validators, and against the validators the
    declaration lists itself. *)
Record IntegerField : Type := mkIntegerField {
  internal_type : InternalType;
  int_default : option Z;
  int_validators : list (Z -> bool)
}.

Definition IntegerField_clean (be : Backend) (f : IntegerField) (n : Z) : bool :=
  in_range (integer_field_range be (internal_type f)) n
  && forallb (fun check => check n) (int_validators f).

(** A nullable column declared [blank=True] accepts the missing value. *)
Definition nullable_clean (be : Backend) (f : IntegerField) (n : option Z)
  : bool :=
  match n with
  | Some k => IntegerField_clean be f k
  | None => true
  end.

(** [models.FileField(...)] / [models.ImageField(...)]: the column holds
    the name of the file, the empty string when there is none.  The only
    check of [Field.clean] is non-emptiness unless [blank=True];
    [max_length] (100 unless declared) is the width of the column. *)
Record FileField : Type := mkFileField {
  upload_to : string;
  file_max_length : nat;
  file_blank : bool
}.

Definition FileField_clean (f : FileField) (name : string) : bool :=
  file_blank f || negb (String.eqb name "").

(** What the database can hold in a column: no validator is involved, a
    value that does not fit makes the write fail. *)
Definition CharField_fits (be : Backend) (f : CharField) (s : string) : bool :=
  match max_length f with
  | Some n => negb (checks_max_length be) || (String.length s <=? n)%nat
  | None => true
  end.

Definition FileField_fits (be : Backend) (f : FileField) (name : string)
  : bool :=
  negb (checks_max_length be) || (String.length name <=? file_max_length f)%nat.

Definition IntegerField_fits (be : Backend) (f : IntegerField) (n : Z) : bool :=
  in_range (integer_field_range be (internal_type f)) n.

Definition nullable_fits (be : Backend) (f : IntegerField) (n : option Z)
  : bool :=
  match n with
  | Some k => IntegerField_fits be f k
  | None => true
  end.

(** Keys and time stamps.  [UUIDField] values are 128-bit numbers, an
    implicit [AutoField] primary key and a foreign key to it are integers,
    a [DateTimeField] is a point on the time line, a [DurationField] a
    [timedelta] in microseconds. *)
Definition UUID : Type := N.
Definition AutoId : Type := Z.
Definition DateTime : Type := Z.
Definition Duration : Type := Z.

(** ** class Video *)

Module Video.

(** [class Status(models.TextChoices)], lines 8-12: member, wire value,
    display label. *)
Inductive Status : Type :=
| UPLOADING
| PROCESSING
| READY
| FAILED.

Definition Status_value (s : Status) : string :=
  match s with
  | UPLOADING => "uploading"
  | PROCESSING => "processing"
  | READY => "ready"
  | FAILED => "failed"
  end.

Definition Status_label (s : Status) : string :=
  match s with
  | UPLOADING => "Uploading"
  | PROCESSING => "Processing"
  | READY => "Ready"
  | FAILED => "Failed"
  end.

(** Members in declaration order, and [Status.choices]. *)
Definition Status_members : list Status := [UPLOADING; PROCESSING; READY; FAILED].

Definition Status_choices : list (string * string) :=
  map (fun s => (Status_value s, Status_label s)) Status_members.

(** [Status(value)]: the member with that wire value, if any. *)
Definition Status_of_value (v : string) : option Status :=
  find (fun s => String.eqb (Status_value s) v) Status_members.

Definition Status_eqb (a b : Status) : bool :=
  match a, b with
  | UPLOADING, UPLOADING | PROCESSING, PROCESSING
  | READY, READY | FAILED, FAILED => true
  | _, _ => false
  end.

(** [class Visibility(models.TextChoices)], lines 14-17. *)
Inductive Visibility : Type :=
| PUBLIC
| UNLISTED
| PRIVATE.

Definition Visibility_value (v : Visibility) : string :=
  match v with
  | PUBLIC => "public"
  | UNLISTED => "unlisted"
  | PRIVATE => "private"
  end.

Definition Visibility_label (v : Visibility) : string :=
  match v with
  | PUBLIC => "Public"
  | UNLISTED => "Unlisted"
  | PRIVATE => "Private"
  end.

Definition Visibility_members : list Visibility := [PUBLIC; UNLISTED; PRIVATE].

Definition Visibility_choices : list (string * string) :=
  map (fun v => (Visibility_value v, Visibility_label v)) Visibility_members.

Definition Visibility_eqb (a b : Visibility) : bool :=
  match a, b with
  | PUBLIC, PUBLIC | UNLISTED, UNLISTED | PRIVATE, PRIVATE => true
  | _, _ => false
  end.

(** The two choice columns as declared, lines 71-82. *)
Definition status_field : CharField :=
  {| max_length := Some 20%nat;
     choices := Status_choices;
     blank := false;
     default := Some (Status_value UPLOADING) |}.

Definition visibility_field : CharField :=
  {| max_length := Some 20%nat;
     choices := Visibility_choices;
     blank := false;
     default := Some (Visibility_value PUBLIC) |}.

(** [title], lines 31-34, and the two free-text columns declared
    [blank=True], lines 36-39 and 87-90. *)
Definition title_field : CharField :=
  {| max_length := Some 200%nat; choices := []; blank := false; default := None |}.

Definition description_field : CharField :=
  {| max_length := None; choices := []; blank := true; default := None |}.

Definition error_message_field : CharField :=
  {| max_length := None; choices := []; blank := true; default := None |}.

(** The two file columns, lines 41-52: [thumbnail] is declared
    [blank=True], [original_file] is not. *)
Definition thumbnail_field : FileField :=
  {| upload_to := "thumbnails/"; file_max_length := 100; file_blank := true |}.

Definition original_file_field : FileField :=
  {| upload_to := "videos/original/"; file_max_length := 100;
     file_blank := false |}.

(** The integer columns, lines 61-68 and 83-94.  None of them lists a
    validator; [processing_progress] documents its range in [help_text]
    only: "Processing completion percentage (0-100)". *)
Definition width_field : IntegerField :=
  {| internal_type := IntegerType; int_default := None; int_validators := [] |}.

Definition height_field : IntegerField :=
  {| internal_type := IntegerType; int_default := None; int_validators := [] |}.

Definition file_size_field : IntegerField :=
  {| internal_type := BigIntegerType; int_default := None;
     int_validators := [] |}.

Definition processing_progress_field : IntegerField :=
  {| internal_type := IntegerType; int_default := Some 0;
     int_validators := [] |}.

Definition comments_count_field : IntegerField :=
  {| internal_type := IntegerType; int_default := Some 0;
     int_validators := [] |}.

Definition int_default_or_zero (f : IntegerField) : Z :=
  match int_default f with
  | Some n => n
  | None => 0
  end.

Definition processing_progress_default : Z :=
  int_default_or_zero processing_progress_field.

Definition comments_count_default : Z :=
  int_default_or_zero comments_count_field.

(** One instance of the class, which is one row of table [videos] once it
    is saved.  Every column is an attribute that holds what was assigned
    to it: [status] and [visibility] are strings, whatever [choices] says;
    a file column holds the file's name; nullable columns are options.
    The instance has its [user] assigned: the key is declared without
    [null=True], and neither [full_clean()] nor [save()] takes an instance
    without one. *)
Record t : Type := mk {
  id : UUID;
  user : AutoId;
  title : string;
  description : string;
  thumbnail : string;
  original_file : string;
  duration : option Duration;
  width : option Z;
  height : option Z;
  file_size : option Z;
  status : string;
  visibility : string;
  processing_progress : Z;
  error_message : string;
  comments_count : Z;
  created_at : DateTime;
  updated_at : DateTime;
  published_at : option DateTime
}.

(** The keyword arguments of the calls to [Video.objects.create] made
    below; a column that is not supplied takes its declared default.  Any
    other column is assigned with the setters that follow, which is what
    the constructor does with a keyword. *)
Record kwargs : Type := mkKwargs {
  kw_description : option string;
  kw_status : option Status;
  kw_visibility : option Visibility
}.

Definition no_kwargs : kwargs :=
  {| kw_description := None; kw_status := None; kw_visibility := None |}.

Definition status_default : Status :=
  match default status_field with
  | Some v =>
      match Status_of_value v with
      | Some s => s
      | None => UPLOADING
      end
  | None => UPLOADING
  end.

Definition visibility_default : Visibility :=
  match default visibility_field with
  | Some v =>
      match find (fun m => String.eqb (Visibility_value m) v) Visibility_members with
      | Some m => m
      | None => PUBLIC
      end
  | None => PUBLIC
  end.

(** [Video.objects.create(user=..., title=..., **kw)] at time [now], with
    the fresh [uuid.uuid4()] passed in as [new_id]: the instance as the
    call returns it, no file attached. *)
Definition create (new_id : UUID) (owner : AutoId) (ttl : string)
  (kw : kwargs) (now : DateTime) : t :=
  {| id := new_id;
     user := owner;
     title := ttl;
     description := match kw_description kw with Some d => d | None => "" end;
     thumbnail := "";
     original_file := "";
     duration := None;
     width := None;
     height := None;
     file_size := None;
     status :=
       match kw_status kw with
       | Some s => Status_value s
       | None => Status_value status_default
       end;
     visibility :=
       match kw_visibility kw with
       | Some v => Visibility_value v
       | None => Visibility_value visibility_default
       end;
     processing_progress := processing_progress_default;
     error_message := "";
     comments_count := comments_count_default;
     created_at := now;
     updated_at := now;
     published_at := None |}.

(** Attribute assignment on an instance, one function per column that is
    written below.  Nothing is checked on assignment. *)
Definition set_status (s : string) (v : t) : t :=
  mk (id v) (user v) (title v) (description v) (thumbnail v) (original_file v)
     (duration v) (width v) (height v) (file_size v) s (visibility v)
     (processing_progress v) (error_message v) (comments_count v)
     (created_at v) (updated_at v) (published_at v).

Definition set_visibility (x : string) (v : t) : t :=
  mk (id v) (user v) (title v) (description v) (thumbnail v) (original_file v)
     (duration v) (width v) (height v) (file_size v) (status v) x
     (processing_progress v) (error_message v) (comments_count v)
     (created_at v) (updated_at v) (published_at v).

Definition set_processing_progress (p : Z) (v : t) : t :=
  mk (id v) (user v) (title v) (description v) (thumbnail v) (original_file v)
     (duration v) (width v) (height v) (file_size v) (status v) (visibility v)
     p (error_message v) (comments_count v)
     (created_at v) (updated_at v) (published_at v).

Definition set_error_message (m : string) (v : t) : t :=
  mk (id v) (user v) (title v) (description v) (thumbnail v) (original_file v)
     (duration v) (width v) (height v) (file_size v) (status v) (visibility v)
     (processing_progress v) m (comments_count v)
     (created_at v) (updated_at v) (published_at v).

Definition set_published_at (p : option DateTime) (v : t) : t :=
  mk (id v) (user v) (title v) (description v) (thumbnail v) (original_file v)
     (duration v) (width v) (height v) (file_size v) (status v) (visibility v)
     (processing_progress v) (error_message v) (comments_count v)
     (created_at v) (updated_at v) p.

Definition set_title (x : string) (v : t) : t :=
  mk (id v) (user v) x (description v) (thumbnail v) (original_file v)
     (duration v) (width v) (height v) (file_size v) (status v) (visibility v)
     (processing_progress v) (error_message v) (comments_count v)
     (created_at v) (updated_at v) (published_at v).

Definition set_description (x : string) (v : t) : t :=
  mk (id v) (user v) (title v) x (thumbnail v) (original_file v)
     (duration v) (width v) (height v) (file_size v) (status v) (visibility v)
     (processing_progress v) (error_message v) (comments_count v)
     (created_at v) (updated_at v) (published_at v).

Definition set_original_file (name : string) (v : t) : t :=
  mk (id v) (user v) (title v) (description v) (thumbnail v) name
     (duration v) (width v) (height v) (file_size v) (status v) (visibility v)
     (processing_progress v) (error_message v) (comments_count v)
     (created_at v) (updated_at v) (published_at v).

Definition set_probed (d : Duration) (w h sz : Z) (v : t) : t :=
  mk (id v) (user v) (title v) (description v) (thumbnail v) (original_file v)
     (Some d) (Some w) (Some h) (Some sz) (status v) (visibility v)
     (processing_progress v) (error_message v) (comments_count v)
     (created_at v) (updated_at v) (published_at v).

(** [updated_at = DateTimeField(auto_now=True)]: every save stamps it. *)
Definition touch (now : DateTime) (v : t) : t :=
  mk (id v) (user v) (title v) (description v) (thumbnail v) (original_file v)
     (duration v) (width v) (height v) (file_size v) (status v) (visibility v)
     (processing_progress v) (error_message v) (comments_count v)
     (created_at v) now (published_at v).

(** [created_at = DateTimeField(auto_now_add=True)]: the INSERT stamps it,
    together with [updated_at], whatever the instance held. *)
Definition stamp_created (now : DateTime) (v : t) : t :=
  mk (id v) (user v) (title v) (description v) (thumbnail v) (original_file v)
     (duration v) (width v) (height v) (file_size v) (status v) (visibility v)
     (processing_progress v) (error_message v) (comments_count v)
     now now (published_at v).

(** Table [videos], keyed by the primary key [id]. *)
Definition table : Type := list t.

Definition get (i : UUID) (tb : table) : option t :=
  find (fun x => (id x =? i)%N) tb.

(** [Model.full_clean()] as the class inherits it: [clean_fields()] cleans
    every column against its declaration (the [user] key must name a
    user, [original_file] must not be empty, a choice column must hold one
    of its choices, an integer must be in the backend's range);
    [validate_unique()] looks the primary key up when the instance is new
    ([adding], the instance's [_state.adding]).  The class defines no
    [clean] of its own and [Meta] lists no constraint.  [users] are the
    primary keys of the user table, [stored] is table [videos]. *)
Definition full_clean (be : Backend) (users : list AutoId) (stored : table)
  (adding : bool) (v : t) : bool :=
  existsb (Z.eqb (user v)) users
  && CharField_clean title_field (title v)
  && CharField_clean description_field (description v)
  && FileField_clean thumbnail_field (thumbnail v)
  && FileField_clean original_file_field (original_file v)
  && nullable_clean be width_field (width v)
  && nullable_clean be height_field (height v)
  && nullable_clean be file_size_field (file_size v)
  && CharField_clean status_field (status v)
  && CharField_clean visibility_field (visibility v)
  && IntegerField_clean be processing_progress_field (processing_progress v)
  && CharField_clean error_message_field (error_message v)
  && IntegerField_clean be comments_count_field (comments_count v)
  && (negb adding || negb (existsb (fun x => (id x =? id v)%N) stored)).

(** Whether the columns of table [videos] can hold the instance: the
    integers within the range of their column type, the strings within
    the width of their column where the backend checks it.  [choices] and
    [blank] are no part of the table. *)
Definition fits (be : Backend) (v : t) : bool :=
  CharField_fits be title_field (title v)
  && FileField_fits be thumbnail_field (thumbnail v)
  && FileField_fits be original_file_field (original_file v)
  && (has_native_duration_field be
      || match duration v with
         | Some d => in_range (integer_field_range be BigIntegerType) d
         | None => true
         end)
  && nullable_fits be width_field (width v)
  && nullable_fits be height_field (height v)
  && nullable_fits be file_size_field (file_size v)
  && CharField_fits be status_field (status v)
  && CharField_fits be visibility_field (visibility v)
  && IntegerField_fits be processing_progress_field (processing_progress v)
  && IntegerField_fits be comments_count_field (comments_count v).

(** What [Model.save()] does to the table when the database takes the
    row: an UPDATE of the row with this primary key when there is one, an
    INSERT otherwise.  Nothing is validated: the class overrides neither
    [save] nor [clean], and [Meta] declares indexes only.  When the
    database does not take the row is said by [Database.save_video]. *)
Definition save (v : t) (now : DateTime) (tb : table) : table :=
  if existsb (fun x => (id x =? id v)%N) tb
  then map (fun x => if (id x =? id v)%N then touch now v else x) tb
  else (tb ++ [stamp_created now v])%list.

(** One write by a caller: load the row, assign columns, save. *)
Definition write (i : UUID) (assign : t -> t) (now : DateTime) (tb : table)
  : table :=
  match get i tb with
  | Some v => save (assign v) now tb
  | None => tb
  end.

End Video.

(** A member of a [TextChoices] class is a [str]: where a column value is
    expected, the member stands for its wire value. *)
Coercion Video.Status_value : Video.Status >-> string.
Coercion Video.Visibility_value : Video.Visibility >-> string.

(** ** Tables with a [unique_together] constraint

    [VideoQuality] and [PlaylistVideo] both carry an implicit integer
    primary key and declare [unique_together] over two columns.  The
    database checks the constraint on every statement that writes the
    table and rejects the statement with [IntegrityError], leaving the
    table as it was.  Statements are atomic, so what concurrent sessions
    do to a table is some sequence of statements. *)

Inductive DbError : Type :=
| IntegrityError.

(** What a write through the ORM raises: the database's refusal of a key,
    or [DataError] for a value that does not fit its column (what the
    SQLite driver raises for an integer beyond 64 bits is
    [OverflowError]). *)
Inductive SaveError : Type :=
| Refused (e : DbError)
| DataError.

Section UniqueTogether.

Context {Row Key : Type}.
Variable key : Row -> Key.
Variable Key_eqb : Key -> Key -> bool.
Variable pk : Row -> AutoId.
Variable with_pk : AutoId -> Row -> Row.

Record Table : Type := mkTable {
  rows : list Row;
  next_pk : AutoId
}.

Definition empty_table : Table := {| rows := []; next_pk := 1 |}.

Definition has_key (k : Key) (r : Row) : bool := Key_eqb (key r) k.

(** Rows holding key [k]. *)
Definition matching (k : Key) (t : Table) : list Row :=
  filter (has_key k) (rows t).

(** INSERT of a row that has no primary key yet (an instance that was not
    saved before: the primary key field of [r] is not read): the row gets
    the next primary key; refused when the key pair is already present.
    The statement is the one this table sees; a key to another table is
    checked against that table, in [Database] below. *)
Definition insert (r : Row) (t : Table) : DbError + Table :=
  if existsb (has_key (key r)) (rows t)
  then inl IntegrityError
  else inr {| rows := rows t ++ [with_pk (next_pk t) r];
              next_pk := next_pk t + 1 |}.

(** UPDATE ... WHERE id = p: the row with primary key [p] takes the columns
    of [r]; refused when that row exists and another row already holds the
    new key pair.  With no row under [p] the statement changes nothing. *)
Definition update (p : AutoId) (r : Row) (t : Table) : DbError + Table :=
  if existsb (fun x => pk x =? p) (rows t)
     && existsb (fun x => negb (pk x =? p) && has_key (key r) x) (rows t)
  then inl IntegrityError
  else inr {| rows := map (fun x => if pk x =? p then with_pk p r else x) (rows t);
              next_pk := next_pk t |}.

(** DELETE ... WHERE: also what [on_delete=CASCADE] runs when the parent
    row goes. *)
Definition delete_where (f : Row -> bool) (t : Table) : Table :=
  {| rows := filter (fun x => negb (f x)) (rows t);
     next_pk := next_pk t |}.

Inductive Statement : Type :=
| Insert (r : Row)
| Update (p : AutoId) (r : Row)
| Delete (p : AutoId)
| DeleteWhere (f : Row -> bool).

Definition execute (s : Statement) (t : Table) : DbError + Table :=
  match s with
  | Insert r => insert r t
  | Update p r => update p r t
  | Delete p => inr (delete_where (fun x => pk x =? p) t)
  | DeleteWhere f => inr (delete_where f t)
  end.

(** A statement that fails leaves the table unchanged. *)
Definition commit (s : Statement) (t : Table) : Table :=
  match execute s t with
  | inr t' => t'
  | inl _ => t
  end.

(** Any interleaving of the statements of any number of sessions. *)
Definition run_statements (ss : list Statement) (t : Table) : Table :=
  fold_left (fun acc s => commit s acc) ss t.

(** What the constraint and the primary key promise of a stored table:
    no two rows under one key pair, no two rows under one primary key, and
    every primary key handed out already. *)
Definition table_ok (t : Table) : Prop :=
  NoDup (map key (rows t))
  /\ NoDup (map pk (rows t))
  /\ Forall (fun r => pk r < next_pk t) (rows t).

End UniqueTogether.

(** ** class VideoQuality, lines 121-170 *)

Module VideoQuality.

Record t : Type := mk {
  id : AutoId;
  video : UUID;
  quality_name : string;
  width : Z;
  height : Z;
  bitrate : string;
  file_path : string;
  hls_playlist_path : string;
  file_size : option Z;
  created_at : DateTime
}.

(** The columns as declared, lines 129-158. *)
Definition quality_name_field : CharField :=
  {| max_length := Some 20%nat; choices := []; blank := false; default := None |}.

Definition width_field : IntegerField :=
  {| internal_type := IntegerType; int_default := None; int_validators := [] |}.

Definition height_field : IntegerField :=
  {| internal_type := IntegerType; int_default := None; int_validators := [] |}.

Definition bitrate_field : CharField :=
  {| max_length := Some 20%nat; choices := []; blank := false; default := None |}.

Definition file_path_field : CharField :=
  {| max_length := Some 500%nat; choices := []; blank := false; default := None |}.

Definition hls_playlist_path_field : CharField :=
  {| max_length := Some 500%nat; choices := []; blank := true; default := None |}.

Definition file_size_field : IntegerField :=
  {| internal_type := BigIntegerType; int_default := None;
     int_validators := [] |}.

(** Whether the columns of table [video_qualities] can hold the row. *)
Definition fits (be : Backend) (r : t) : bool :=
  CharField_fits be quality_name_field (quality_name r)
  && IntegerField_fits be width_field (width r)
  && IntegerField_fits be height_field (height r)
  && CharField_fits be bitrate_field (bitrate r)
  && CharField_fits be file_path_field (file_path r)
  && CharField_fits be hls_playlist_path_field (hls_playlist_path r)
  && nullable_fits be file_size_field (file_size r).

(** [Meta.unique_together = ['video', 'quality_name']]. *)
Definition unique_key (r : t) : UUID * string := (video r, quality_name r).

Definition key_eqb (a b : UUID * string) : bool :=
  (fst a =? fst b)%N && String.eqb (snd a) (snd b).

Definition with_id (n : AutoId) (r : t) : t :=
  {| id := n;
     video := video r;
     quality_name := quality_name r;
     width := width r;
     height := height r;
     bitrate := bitrate r;
     file_path := file_path r;
     hls_playlist_path := hls_playlist_path r;
     file_size := file_size r;
     created_at := created_at r |}.

(** [created_at = DateTimeField(auto_now_add=True)], line 160: the INSERT
    stamps it, whatever the instance held. *)
Definition stamp_created (now : DateTime) (r : t) : t :=
  {| id := id r;
     video := video r;
     quality_name := quality_name r;
     width := width r;
     height := height r;
     bitrate := bitrate r;
     file_path := file_path r;
     hls_playlist_path := hls_playlist_path r;
     file_size := file_size r;
     created_at := now |}.

Definition table : Type := @Table t.

Definition statement : Type := @Statement t.

Definition run : list statement -> table -> table :=
  run_statements unique_key key_eqb id with_id.

(** Rows of [video v] at tier [q]. *)
Definition renditions (v : UUID) (q : string) (tb : table) : list t :=
  matching unique_key key_eqb (v, q) tb.

(** [Video.delete()]: [on_delete=models.CASCADE] on the [video] key. *)
Definition cascade_delete (v : UUID) : statement :=
  DeleteWhere (fun r => (video r =? v)%N).

End VideoQuality.

(** ** class PlaylistVideo, lines 266-290 *)

Module PlaylistVideo.

Record t : Type := mk {
  id : AutoId;
  playlist : UUID;
  video : UUID;
  order : Z;
  added_at : DateTime
}.

Definition order_default : Z := 0.

(** [Meta.unique_together = ['playlist', 'video']]. *)
Definition unique_key (r : t) : UUID * UUID := (playlist r, video r).

Definition key_eqb (a b : UUID * UUID) : bool :=
  (fst a =? fst b)%N && (snd a =? snd b)%N.

Definition with_id (n : AutoId) (r : t) : t :=
  {| id := n;
     playlist := playlist r;
     video := video r;
     order := order r;
     added_at := added_at r |}.

Definition table : Type := @Table t.

Definition statement : Type := @Statement t.

(** The INSERT that [PlaylistVideo.objects.create(playlist=p, video=v,
    order=o)] issues at time [now], as table [playlist_videos] takes it:
    [added_at] is stamped ([auto_now_add]) and the pair is checked.
    Whether [p] and [v] name rows is checked against their tables, in
    [Database.add_to_playlist]. *)
Definition add (p v : UUID) (o : Z) (now : DateTime) (tb : table)
  : DbError + table :=
  insert unique_key key_eqb with_id
    {| id := 0; playlist := p; video := v; order := o; added_at := now |} tb.

Definition run : list statement -> table -> table :=
  run_statements unique_key key_eqb id with_id.

(** Entries of playlist [p] that hold video [v]. *)
Definition entries (p v : UUID) (tb : table) : list t :=
  matching unique_key key_eqb (p, v) tb.

End PlaylistVideo.

(** ** The remaining classes of the schema *)

(** [Visibility(value)]: the member with that wire value, if any. *)
Definition Visibility_of_value (v : string) : option Video.Visibility :=
  find (fun m => String.eqb (Video.Visibility_value m) v) Video.Visibility_members.

(** [class User(AbstractUser)], stream/users/models.py: the primary key and
    [username] of the base class, and the two columns the class adds. *)
Module User.

Record t : Type := mk {
  id : AutoId;
  username : string;
  bio : option string;
  is_streamer : bool
}.

Definition is_streamer_default : bool := false.

(** [def __str__(self): return self.username]. *)
Definition str (u : t) : string := username u.

End User.

(** [class Comment], lines 173-225.  [parent] is the nullable key to
    'self': [None] for a top-level comment, the comment replied to
    otherwise. *)
Module Comment.

Record t : Type := mk {
  id : UUID;
  video : UUID;
  user : AutoId;
  parent : option UUID;
  content : string;
  created_at : DateTime;
  updated_at : DateTime;
  is_edited : bool
}.

Definition is_edited_default : bool := false.

(** [created_at] is declared [auto_now_add=True] and [updated_at]
    [auto_now=True], lines 208-209: the INSERT stamps both, whatever the
    instance held. *)
Definition stamp_created (now : DateTime) (c : t) : t :=
  {| id := id c;
     video := video c;
     user := user c;
     parent := parent c;
     content := content c;
     created_at := now;
     updated_at := now;
     is_edited := is_edited c |}.

End Comment.

(** [class Playlist], lines 228-263. *)
Module Playlist.

Record t : Type := mk {
  id : UUID;
  user : AutoId;
  title : string;
  description : string;
  is_public : bool;
  created_at : DateTime;
  updated_at : DateTime
}.

Definition is_public_default : bool := true.

End Playlist.

(** [class Subscription], lines 293-323. *)
Module Subscription.

Record t : Type := mk {
  id : AutoId;
  subscriber : AutoId;
  channel : AutoId;
  notifications_enabled : bool;
  created_at : DateTime
}.

Definition notifications_enabled_default : bool := true.

(** [Meta.unique_together = ['subscriber', 'channel']]. *)
Definition unique_key (r : t) : AutoId * AutoId := (subscriber r, channel r).

Definition key_eqb (a b : AutoId * AutoId) : bool :=
  (fst a =? fst b) && (snd a =? snd b).

Definition with_id (n : AutoId) (r : t) : t :=
  {| id := n;
     subscriber := subscriber r;
     channel := channel r;
     notifications_enabled := notifications_enabled r;
     created_at := created_at r |}.

Definition table : Type := @Table t.

Definition statement : Type := @Statement t.

(** The INSERT that [Subscription.objects.create(subscriber=s, channel=c)]
    issues at time [now], as table [subscriptions] takes it: [created_at]
    is stamped ([auto_now_add]) and the pair is checked.  Whether [s] and
    [c] name users is checked against the user table, in
    [Database.subscribe]. *)
Definition subscribe (s c : AutoId) (now : DateTime) (tb : table)
  : DbError + table :=
  insert unique_key key_eqb with_id
    {| id := 0; subscriber := s; channel := c;
       notifications_enabled := notifications_enabled_default;
       created_at := now |} tb.

Definition run : list statement -> table -> table :=
  run_statements unique_key key_eqb id with_id.

(** Rows that say [s] follows [c]. *)
Definition between (s c : AutoId) (tb : table) : list t :=
  matching unique_key key_eqb (s, c) tb.

End Subscription.

(** ** [PlaylistVideo.Meta.ordering = ['order']]

    The entries of a playlist as its related manager lists them: ascending
    by [order]. *)

Fixpoint place_entry (e : PlaylistVideo.t) (l : list PlaylistVideo.t)
  : list PlaylistVideo.t :=
  match l with
  | [] => [e]
  | x :: rest =>
      if PlaylistVideo.order e <=? PlaylistVideo.order x
      then e :: x :: rest
      else x :: place_entry e rest
  end.

Definition by_order (l : list PlaylistVideo.t) : list PlaylistVideo.t :=
  fold_right place_entry [] l.

(** [playlist.playlist_videos.all()]. *)
Definition playlist_listing (p : UUID) (tb : PlaylistVideo.table)
  : list PlaylistVideo.t :=
  by_order (filter (fun e => (PlaylistVideo.playlist e =? p)%N) (rows tb)).

(** ** The database as a whole

    Every relation of the schema is declared [on_delete=models.CASCADE]:
    deleting a row deletes the rows that point to it, and so on along the
    keys.  The database also refuses a row whose key points nowhere. *)

Module Database.

Record t : Type := mk {
  users : list User.t;
  videos : Video.table;
  video_qualities : VideoQuality.table;
  comments : list Comment.t;
  playlists : list Playlist.t;
  playlist_videos : PlaylistVideo.table;
  subscriptions : Subscription.table
}.

Definition empty : t :=
  {| users := []; videos := []; video_qualities := empty_table;
     comments := []; playlists := []; playlist_videos := empty_table;
     subscriptions := empty_table |}.

Definition mem_id (i : UUID) (l : list UUID) : bool := existsb (N.eqb i) l.

Definition mem_user (u : AutoId) (l : list AutoId) : bool := existsb (Z.eqb u) l.

Definition user_ids (db : t) : list AutoId := map User.id (users db).
Definition video_ids (db : t) : list UUID := map Video.id (videos db).
Definition comment_ids (db : t) : list UUID := map Comment.id (comments db).
Definition playlist_ids (db : t) : list UUID := map Playlist.id (playlists db).

(** Following a key to the row it names. *)
Definition find_user (u : AutoId) (db : t) : option User.t :=
  find (fun x => User.id x =? u) (users db).

Definition find_video (i : UUID) (db : t) : option Video.t :=
  Video.get i (videos db).

Definition find_comment (i : UUID) (db : t) : option Comment.t :=
  find (fun c => (Comment.id c =? i)%N) (comments db).

Definition find_playlist (i : UUID) (db : t) : option Playlist.t :=
  find (fun p => (Playlist.id p =? i)%N) (playlists db).

(** The [__str__] methods.  Those that read a related row follow the key
    first; a key that names no row makes the access fail. *)

(** [Video.__str__], lines 117-118: f"{self.title} by {self.user.username}". *)
Definition video_str (db : t) (v : Video.t) : option string :=
  match find_user (Video.user v) db with
  | Some u => Some (Video.title v ++ " by " ++ User.username u)%string
  | None => None
  end.

(** [VideoQuality.__str__], lines 169-170:
    f"{self.video.title} - {self.quality_name}". *)
Definition video_quality_str (db : t) (q : VideoQuality.t) : option string :=
  match find_video (VideoQuality.video q) db with
  | Some v => Some (Video.title v ++ " - " ++ VideoQuality.quality_name q)%string
  | None => None
  end.

(** [Comment.__str__], lines 224-225:
    f"Comment by {self.user.username} on {self.video.title}". *)
Definition comment_str (db : t) (c : Comment.t) : option string :=
  match find_user (Comment.user c) db, find_video (Comment.video c) db with
  | Some u, Some v =>
      Some ("Comment by " ++ User.username u ++ " on " ++ Video.title v)%string
  | _, _ => None
  end.

(** [Playlist.__str__], lines 262-263: f"{self.title} by {self.user.username}". *)
Definition playlist_str (db : t) (p : Playlist.t) : option string :=
  match find_user (Playlist.user p) db with
  | Some u => Some (Playlist.title p ++ " by " ++ User.username u)%string
  | None => None
  end.

(** [PlaylistVideo.__str__], lines 289-290:
    f"{self.video.title} in {self.playlist.title}". *)
Definition playlist_video_str (db : t) (e : PlaylistVideo.t) : option string :=
  match find_video (PlaylistVideo.video e) db,
        find_playlist (PlaylistVideo.playlist e) db with
  | Some v, Some p => Some (Video.title v ++ " in " ++ Playlist.title p)%string
  | _, _ => None
  end.

(** [Subscription.__str__], lines 322-323:
    f"{self.subscriber.username} -> {self.channel.username}". *)
Definition subscription_str (db : t) (s : Subscription.t) : option string :=
  match find_user (Subscription.subscriber s) db,
        find_user (Subscription.channel s) db with
  | Some a, Some b => Some (User.username a ++ " -> " ++ User.username b)%string
  | _, _ => None
  end.

(** What the database guarantees of its content: primary keys and
    [unique_together] pairs are not repeated, and every key names a row. *)
Record ok (db : t) : Prop := mk_ok {
  users_pk : NoDup (user_ids db);
  videos_pk : NoDup (video_ids db);
  comments_pk : NoDup (comment_ids db);
  playlists_pk : NoDup (playlist_ids db);
  qualities_ok :
    table_ok VideoQuality.unique_key VideoQuality.id (video_qualities db);
  entries_ok :
    table_ok PlaylistVideo.unique_key PlaylistVideo.id (playlist_videos db);
  subscriptions_ok :
    table_ok Subscription.unique_key Subscription.id (subscriptions db);
  video_user :
    forall v, In v (videos db) -> In (Video.user v) (user_ids db);
  quality_video :
    forall q, In q (rows (video_qualities db)) ->
              In (VideoQuality.video q) (video_ids db);
  comment_video :
    forall c, In c (comments db) -> In (Comment.video c) (video_ids db);
  comment_user :
    forall c, In c (comments db) -> In (Comment.user c) (user_ids db);
  comment_parent :
    forall c p, In c (comments db) -> Comment.parent c = Some p ->
                In p (comment_ids db);
  playlist_user :
    forall p, In p (playlists db) -> In (Playlist.user p) (user_ids db);
  entry_playlist :
    forall e, In e (rows (playlist_videos db)) ->
              In (PlaylistVideo.playlist e) (playlist_ids db);
  entry_video :
    forall e, In e (rows (playlist_videos db)) ->
              In (PlaylistVideo.video e) (video_ids db);
  subscription_subscriber :
    forall s, In s (rows (subscriptions db)) ->
              In (Subscription.subscriber s) (user_ids db);
  subscription_channel :
    forall s, In s (rows (subscriptions db)) ->
              In (Subscription.channel s) (user_ids db)
}.

(** *** Deletion

    A comment is a reply to a doomed comment when its [parent] is one. *)
Definition replies_to (doomed : list UUID) (c : Comment.t) : bool :=
  match Comment.parent c with
  | Some p => mem_id p doomed
  | None => false
  end.

(** The collector: starting from the comments to delete, take in the
    replies to what is collected until a round finds none.  Each round
    that goes on takes in a comment not collected before, so as many
    rounds as there are comments are enough. *)
Fixpoint collect_replies (rounds : nat) (cs : list Comment.t)
  (doomed : list UUID) : list UUID :=
  match rounds with
  | O => doomed
  | S n =>
      match filter (fun c => replies_to doomed c
                             && negb (mem_id (Comment.id c) doomed)) cs with
      | [] => doomed
      | more => collect_replies n cs (doomed ++ map Comment.id more)
      end
  end.

(** Deleting users [us], videos [vs], playlists [ps] and comments [cs]
    with everything that hangs on them. *)
Definition delete_cascade (us : list AutoId) (vs ps cs : list UUID) (db : t)
  : t :=
  let dead_videos :=
    (vs ++ map Video.id
             (filter (fun v => mem_user (Video.user v) us) (videos db)))%list in
  let dead_playlists :=
    (ps ++ map Playlist.id
             (filter (fun p => mem_user (Playlist.user p) us)
                (playlists db)))%list in
  let roots :=
    (cs ++ map Comment.id
             (filter (fun c => mem_user (Comment.user c) us
                               || mem_id (Comment.video c) dead_videos)
                (comments db)))%list in
  let dead_comments :=
    collect_replies (List.length (comments db)) (comments db) roots in
  {| users := filter (fun u => negb (mem_user (User.id u) us)) (users db);
     videos :=
       filter (fun v => negb (mem_id (Video.id v) dead_videos)) (videos db);
     video_qualities :=
       delete_where (fun q => mem_id (VideoQuality.video q) dead_videos)
         (video_qualities db);
     comments :=
       filter (fun c => negb (mem_id (Comment.id c) dead_comments))
         (comments db);
     playlists :=
       filter (fun p => negb (mem_id (Playlist.id p) dead_playlists))
         (playlists db);
     playlist_videos :=
       delete_where (fun e => mem_id (PlaylistVideo.playlist e) dead_playlists
                              || mem_id (PlaylistVideo.video e) dead_videos)
         (playlist_videos db);
     subscriptions :=
       delete_where (fun s => mem_user (Subscription.subscriber s) us
                              || mem_user (Subscription.channel s) us)
         (subscriptions db) |}.

(** [user.delete()], [video.delete()], [playlist.delete()],
    [comment.delete()]. *)
Definition delete_user (u : AutoId) (db : t) : t := delete_cascade [u] [] [] [] db.

Definition delete_video (v : UUID) (db : t) : t := delete_cascade [] [v] [] [] db.

Definition delete_playlist (p : UUID) (db : t) : t :=
  delete_cascade [] [] [p] [] db.

Definition delete_comment (c : UUID) (db : t) : t :=
  delete_cascade [] [] [] [c] db.

(** *** Insertion

    A row goes in when its keys name rows that exist, its primary key is
    free and its [unique_together] pair is free; otherwise the database
    raises [IntegrityError] and nothing changes. *)

(** [Comment(id=..., video=..., user=..., parent=..., content=...).save()]
    at time [now].  The key to 'self' is checked with the row in place, so
    a comment may name itself as its parent. *)
Definition add_comment (c : Comment.t) (now : DateTime) (db : t) : DbError + t :=
  if mem_id (Comment.video c) (video_ids db)
     && mem_user (Comment.user c) (user_ids db)
     && match Comment.parent c with
        | Some p => mem_id p (comment_ids db) || (p =? Comment.id c)%N
        | None => true
        end
     && negb (mem_id (Comment.id c) (comment_ids db))
  then inr (mk (users db) (videos db) (video_qualities db)
               (comments db ++ [Comment.stamp_created now c]) (playlists db)
               (playlist_videos db) (subscriptions db))
  else inl IntegrityError.

(** [VideoQuality.objects.create(video=..., quality_name=..., ...)] at time
    [now].  The database refuses a value that its column cannot hold, a
    [video] that names no video and a pair that is taken. *)
Definition add_rendition (be : Backend) (q : VideoQuality.t) (now : DateTime)
  (db : t) : SaveError + t :=
  if negb (VideoQuality.fits be q) then inl DataError
  else if negb (mem_id (VideoQuality.video q) (video_ids db))
  then inl (Refused IntegrityError)
  else match insert VideoQuality.unique_key VideoQuality.key_eqb
                 VideoQuality.with_id (VideoQuality.stamp_created now q)
                 (video_qualities db) with
       | inr tb => inr (mk (users db) (videos db) tb (comments db)
                           (playlists db) (playlist_videos db)
                           (subscriptions db))
       | inl e => inl (Refused e)
       end.

(** [VideoQuality.objects.filter(pk=p).update(video=..., quality_name=...,
    ...)]: the UPDATE of the columns of row [p] to those of [q].  With no
    row under [p] nothing is written and no key is checked. *)
Definition update_rendition (be : Backend) (p : AutoId) (q : VideoQuality.t)
  (db : t) : SaveError + t :=
  if negb (VideoQuality.fits be q) then inl DataError
  else if existsb (fun x => VideoQuality.id x =? p) (rows (video_qualities db))
          && negb (mem_id (VideoQuality.video q) (video_ids db))
  then inl (Refused IntegrityError)
  else match update VideoQuality.unique_key VideoQuality.key_eqb
                VideoQuality.id VideoQuality.with_id p q
                (video_qualities db) with
       | inr tb => inr (mk (users db) (videos db) tb (comments db)
                           (playlists db) (playlist_videos db)
                           (subscriptions db))
       | inl e => inl (Refused e)
       end.

Definition add_to_playlist (p v : UUID) (o : Z) (now : DateTime) (db : t)
  : DbError + t :=
  if mem_id p (playlist_ids db) && mem_id v (video_ids db)
  then match PlaylistVideo.add p v o now (playlist_videos db) with
       | inr tb => inr (mk (users db) (videos db) (video_qualities db)
                           (comments db) (playlists db) tb (subscriptions db))
       | inl e => inl e
       end
  else inl IntegrityError.

Definition subscribe (s c : AutoId) (now : DateTime) (db : t) : DbError + t :=
  if mem_user s (user_ids db) && mem_user c (user_ids db)
  then match Subscription.subscribe s c now (subscriptions db) with
       | inr tb => inr (mk (users db) (videos db) (video_qualities db)
                           (comments db) (playlists db) (playlist_videos db) tb)
       | inl e => inl e
       end
  else inl IntegrityError.

(** *** Validating and saving a video *)

(** [video.full_clean()] against the tables as they stand. *)
Definition full_clean_video (be : Backend) (adding : bool) (v : Video.t)
  (db : t) : bool :=
  Video.full_clean be (user_ids db) (videos db) adding v.

(** [video.save()] at time [now].  [adding] is the instance's
    [_state.adding]: true for an instance built by [Video(...)] and not
    saved yet, false for one loaded from the table or saved before.  The
    primary key has a default ([uuid.uuid4]), so a new instance is
    written by INSERT without looking for a row first; any other by
    UPDATE, and by INSERT when the UPDATE finds no row.  The database
    refuses a value that its column cannot hold, a primary key that is
    taken and a [user] that names no user.  No validator runs: [save()]
    does not call [full_clean()]. *)
Definition save_video (be : Backend) (adding : bool) (v : Video.t)
  (now : DateTime) (db : t) : SaveError + t :=
  if negb (Video.fits be v) then inl DataError
  else if adding && mem_id (Video.id v) (video_ids db)
  then inl (Refused IntegrityError)
  else if negb (mem_user (Video.user v) (user_ids db))
  then inl (Refused IntegrityError)
  else inr (mk (users db) (Video.save v now (videos db)) (video_qualities db)
               (comments db) (playlists db) (playlist_videos db)
               (subscriptions db)).

End Database.

(** The comments that hang below a set of comments: those of the set, and
    every reply to a comment that hangs below it. *)
Inductive hangs_below (cs : list Comment.t) (roots : list UUID)
  : UUID -> Prop :=
| hangs_root (i : UUID) :
    In i roots -> hangs_below cs roots i
| hangs_reply (c : Comment.t) (p : UUID) :
    In c cs -> Comment.parent c = Some p -> hangs_below cs roots p ->
    hangs_below cs roots (Comment.id c).

(** ** The status discipline as the specification words it

    "States: uploading -> processing -> {ready, failed}.  failed may be
    resubmitted, transitioning back to processing."  These are the pairs
    that sentence allows; the schema itself names no transition. *)
Definition stated_transitions : list (string * string) :=
  map (fun p => (Video.Status_value (fst p), Video.Status_value (snd p)))
    [(Video.UPLOADING, Video.PROCESSING);
     (Video.PROCESSING, Video.READY);
     (Video.PROCESSING, Video.FAILED);
     (Video.FAILED, Video.PROCESSING)].

(** Sample rows used to evaluate the schema at concrete inputs. *)
Definition sample_video : Video.t :=
  Video.set_original_file "videos/original/launch.mp4"
    (Video.create 1%N 7 "Launch day" Video.no_kwargs 1000).

Definition sample_rendition (v : UUID) (q : string) : VideoQuality.t :=
  {| VideoQuality.id := 0;
     VideoQuality.video := v;
     VideoQuality.quality_name := q;
     VideoQuality.width := 1280;
     VideoQuality.height := 720;
     VideoQuality.bitrate := "2500k";
     VideoQuality.file_path := "videos/720p/1.mp4";
     VideoQuality.hls_playlist_path := "";
     VideoQuality.file_size := None;
     VideoQuality.created_at := 1000 |}.

(** The two users alone, before anything is uploaded. *)
Definition sample_users : Database.t :=
  {| Database.users :=
       [User.mk 7 "ada" None true; User.mk 9 "bob" (Some "hi") false];
     Database.videos := [];
     Database.video_qualities := empty_table;
     Database.comments := [];
     Database.playlists := [];
     Database.playlist_videos := empty_table;
     Database.subscriptions := empty_table |}.

(** The same with one video of ada's stored: file attached, status
    'processing', half done. *)
Definition sample_processing_video : Video.t :=
  Video.stamp_created 1000
    (Video.set_processing_progress 50
       (Video.set_status Video.PROCESSING sample_video)).

Definition sample_processing : Database.t :=
  {| Database.users :=
       [User.mk 7 "ada" None true; User.mk 9 "bob" (Some "hi") false];
     Database.videos := [sample_processing_video];
     Database.video_qualities := empty_table;
     Database.comments := [];
     Database.playlists := [];
     Database.playlist_videos := empty_table;
     Database.subscriptions := empty_table |}.

(** A small database used to evaluate the operations at concrete inputs:
    two users, a video of each, a thread of three comments across the two
    videos, a playlist, a rendition and a subscription. *)
Definition sample_database : Database.t :=
  {| Database.users :=
       [User.mk 7 "ada" None true; User.mk 9 "bob" (Some "hi") false];
     Database.videos :=
       [Video.create 1%N 7 "Launch day" Video.no_kwargs 1000;
        Video.create 2%N 9 "Unboxing" Video.no_kwargs 1001];
     Database.video_qualities :=
       {| rows := [VideoQuality.with_id 1 (sample_rendition 1%N "720p")];
          next_pk := 2 |};
     Database.comments :=
       [Comment.mk 11%N 1%N 9 None "first" 1002 1002 false;
        Comment.mk 12%N 1%N 7 (Some 11%N) "thanks" 1003 1003 false;
        Comment.mk 13%N 2%N 9 (Some 12%N) "see also" 1004 1004 false;
        Comment.mk 14%N 2%N 7 None "nice" 1005 1005 false];
     Database.playlists :=
       [Playlist.mk 5%N 9 "Favourites" "" true 1006 1006];
     Database.playlist_videos :=
       {| rows := [PlaylistVideo.mk 1 5%N 1%N 0 1007;
                   PlaylistVideo.mk 2 5%N 2%N 1 1008];
          next_pk := 3 |};
     Database.subscriptions :=
       {| rows := [Subscription.mk 1 9 7 true 1009];
          next_pk := 2 |} |}.

(* ===================================================================== *)
(** * Part II. The Ingestion Coordinator                                  *)
(* ===================================================================== *)

(** The repository declares the columns the Coordinator drives and holds
    no code for the Coordinator itself.  Everything in this module is
    modelled from the specification (sections 4.1 to 4.3, 5 to 7); the
    rows it writes are the records of Part I. *)

Module Coordinator.

(** Modelled from the spec: the quality tier configuration of section 6,
    an "ordered set of {label, width, height, bitrate, required: bool}";
    the source has no tier table. *)
Record Tier : Type := mkTier {
  label : string;
  tier_width : Z;
  tier_height : Z;
  tier_bitrate : N;
  required : bool
}.

Definition Config : Type := list Tier.

(** Modelled from the spec: the error taxonomy of section 7. *)
Inductive ErrorKind : Type :=
| UnsupportedFormat
| EncodingFailed
| StorageUnavailable
| StaleAttempt.

(** Modelled from the spec: the Probe contract of section 4.1, "returns
    {duration, width, height, container_valid: bool, file_size} or fails". *)
Record ProbeInfo : Type := mkProbeInfo {
  probe_duration : N;
  probe_width : Z;
  probe_height : Z;
  container_valid : bool;
  probe_file_size : Z
}.

Record ProbeError : Type := mkProbeError {
  probe_kind : ErrorKind;
  probe_message : string
}.

(** Modelled from the spec: what a Transcode Worker hands back on success
    (section 4.2), the stored file, the optional manifest and the size. *)
Record Rendition : Type := mkRendition {
  rendition_file_path : string;
  rendition_manifest : string;
  rendition_file_size : option Z
}.

(** Modelled from the spec: the signals the Coordinator consumes
    (sections 4.3 and 5).  Worker signals carry the attempt generation
    that fences stale results. *)
Inductive Event : Type :=
| UploadComplete (probe : ProbeError + ProbeInfo)
| WorkerProgress (gen : nat) (tier : string) (pct : N) (flush : bool)
| TierCompleted (gen : nat) (tier : string) (r : Rendition)
| TierFailed (gen : nat) (tier : string) (kind : ErrorKind)
| AllRequiredComplete (gen : nat)
| Resubmit
| EditTitle (editor : AutoId) (x : string)
| EditDescription (editor : AutoId) (x : string)
| EditVisibility (editor : AutoId) (x : Video.Visibility).

(** Modelled from the spec: what the Coordinator does besides changing its
    own state, the metadata writes and the task control of section 5. *)
Inductive Effect : Type :=
| WriteVideo
| InsertQuality (tier : string)
| StartWorkers (gen : nat)
| CancelWorkers (gen : nat)
| LogDiscard (kind : ErrorKind).

(** Modelled from the spec: a guarded transition function refuses a signal
    that its guard does not let through (section 9). *)
Inductive Refusal : Type :=
| IllegalTransition
| UnknownTier
| NotOwner.

(** Modelled from the spec: one video under ingestion.  The [Video] row and
    the [video_qualities] table are the Metadata Store's; the rest is the
    Coordinator's own bookkeeping for the current attempt. *)
Record State : Type := mkState {
  video : Video.t;
  qualities : VideoQuality.table;
  generation : nat;
  probed : option ProbeInfo;
  tier_percent : list (string * N);
  completed : list string;
  failed_tiers : list string
}.

(** Modelled from the spec: lookups in the tier configuration and in the
    Coordinator's bookkeeping, keyed by tier label. *)
Definition find_tier (cfg : Config) (l : string) : option Tier :=
  find (fun t => String.eqb (label t) l) cfg.

Definition mem (l : string) (ls : list string) : bool :=
  existsb (String.eqb l) ls.

Definition add (l : string) (ls : list string) : list string :=
  if mem l ls then ls else l :: ls.

Definition percent_of (tp : list (string * N)) (l : string) : N :=
  match find (fun e => String.eqb (fst e) l) tp with
  | Some e => snd e
  | None => 0%N
  end.

Definition set_percent (l : string) (p : N) (tp : list (string * N))
  : list (string * N) :=
  (l, p) :: filter (fun e => negb (String.eqb (fst e) l)) tp.

(** Modelled from the spec: "overall processing_progress = weighted average
    of per-tier percent-complete, weights = relative target bitrate x
    duration" (section 4.3).  The quotient is the integer one. *)
Definition tier_weight (d : N) (t : Tier) : N := (tier_bitrate t * d)%N.

Definition sum (l : list N) : N := fold_right N.add 0%N l.

Definition aggregate (cfg : Config) (d : N) (tp : list (string * N)) : N :=
  (sum (map (fun t => tier_weight d t * percent_of tp (label t)) cfg)
   / sum (map (tier_weight d) cfg))%N.

(** Modelled from the spec: the Probe's output is what supplies the
    duration (section 4.1); before it there is none. *)
Definition duration_of (s : State) : N :=
  match probed s with
  | Some info => probe_duration info
  | None => 0%N
  end.

(** Modelled from the spec: the value a progress write stores. *)
Definition progress_now (cfg : Config) (s : State) : Z :=
  Z.of_N (aggregate cfg (duration_of s) (tier_percent s)).

(** Modelled from the spec: a write to the [Video] row, the rest of the
    state kept. *)
Definition with_video (v : Video.t) (s : State) : State :=
  mkState v (qualities s) (generation s) (probed s) (tier_percent s)
          (completed s) (failed_tiers s).

(** Modelled from the spec: "all required quality tiers ... completed
    successfully". *)
Definition required_done (cfg : Config) (s : State) : bool :=
  forallb (fun t => negb (required t) || mem (label t) (completed s)) cfg.

(** Modelled from the spec: "error_message summarizes failing tiers". *)
Definition summarize (failed : list string) : string :=
  ("transcoding failed for: " ++ String.concat ", " failed)%string.

(** Modelled from the spec: the [VideoQuality] row a completed tier
    contributes, "scoped to exactly one (video, quality) pair": the key
    pair is this video and the tier's label, the columns are those of the
    source. *)
Definition rendition_row (now : DateTime) (v : Video.t) (t : Tier)
  (r : Rendition) : VideoQuality.t :=
  {| VideoQuality.id := 0;
     VideoQuality.video := Video.id v;
     VideoQuality.quality_name := label t;
     VideoQuality.width := tier_width t;
     VideoQuality.height := tier_height t;
     VideoQuality.bitrate := NilEmpty.string_of_uint (N.to_uint (tier_bitrate t));
     VideoQuality.file_path := rendition_file_path r;
     VideoQuality.hls_playlist_path := rendition_manifest r;
     VideoQuality.file_size := rendition_file_size r;
     VideoQuality.created_at := now |}.

(** Modelled from the spec: the status as the "tagged variant" of
    section 9: the member of [Video.Status] that the row's [status] column
    names.  A row whose column names none is in no state of the machine
    and every transition refuses it. *)
Definition state_of (s : State) : option Video.Status :=
  Video.Status_of_value (Video.status (video s)).

(** Modelled from the spec: "uploading -> processing: triggered when the
    upload-complete signal arrives and Probe succeeds.  Probe failure
    transitions directly to failed with error_message set to the probe
    error, without ever entering processing." *)
Definition on_upload_complete (now : DateTime)
  (probe : ProbeError + ProbeInfo) (s : State)
  : Refusal + State * list Effect :=
  match state_of s with
  | Some Video.UPLOADING =>
      match probe with
      | inr info =>
          let v := Video.set_probed (Z.of_N (probe_duration info))
                     (probe_width info) (probe_height info)
                     (probe_file_size info) (video s) in
          let v := Video.touch now (Video.set_status Video.PROCESSING v) in
          inr (mkState v (qualities s) (generation s) (Some info)
                 (tier_percent s) (completed s) (failed_tiers s),
               [WriteVideo; StartWorkers (generation s)])
      | inl err =>
          let v := Video.set_error_message (probe_message err) (video s) in
          let v := Video.touch now (Video.set_status Video.FAILED v) in
          inr (with_video v s, [WriteVideo])
      end
  | _ => inl IllegalTransition
  end.

(** Modelled from the spec: the fence every worker signal passes
    (section 5): no worker exists before the Probe is through, a signal of
    another generation is a [StaleAttempt] and is only logged, and once the
    terminal decision is taken the attempt's signals change nothing. *)
Definition fenced (gen : nat) (s : State)
  (k : Refusal + State * list Effect) : Refusal + State * list Effect :=
  match state_of s with
  | None | Some Video.UPLOADING => inl IllegalTransition
  | Some st =>
      if negb (gen =? generation s)%nat then inr (s, [LogDiscard StaleAttempt])
      else match st with
           | Video.PROCESSING => k
           | _ => inr (s, [])
           end
  end.

(** Modelled from the spec: progress "must be recomputed on every worker
    progress callback; writes are coalesced"; [flush] is the rate
    limiter's verdict for this callback. *)
Definition on_worker_progress (cfg : Config) (now : DateTime) (gen : nat)
  (l : string) (pct : N) (flush : bool) (s : State)
  : Refusal + State * list Effect :=
  fenced gen s
    match find_tier cfg l with
    | None => inl UnknownTier
    | Some _ =>
        let s1 := mkState (video s) (qualities s) (generation s) (probed s)
                    (set_percent l pct (tier_percent s))
                    (completed s) (failed_tiers s) in
        if flush
        then inr (with_video
                    (Video.touch now
                       (Video.set_processing_progress (progress_now cfg s1)
                          (video s1))) s1,
                  [WriteVideo])
        else inr (s1, [])
    end.

(** Modelled from the spec: a [VideoQuality] row is "created only by a
    successful Transcode Worker completion"; a second completion of the
    same tier meets the unique constraint and writes nothing. *)
Definition on_tier_completed (cfg : Config) (now : DateTime) (gen : nat)
  (l : string) (r : Rendition) (s : State)
  : Refusal + State * list Effect :=
  fenced gen s
    match find_tier cfg l with
    | None => inl UnknownTier
    | Some t =>
        match insert VideoQuality.unique_key VideoQuality.key_eqb
                VideoQuality.with_id (rendition_row now (video s) t r)
                (qualities s) with
        | inr tb =>
            inr (mkState (video s) tb (generation s) (probed s)
                   (tier_percent s) (add l (completed s)) (failed_tiers s),
                 [InsertQuality l])
        | inl IntegrityError =>
            inr (mkState (video s) (qualities s) (generation s) (probed s)
                   (tier_percent s) (add l (completed s)) (failed_tiers s),
                 [])
        end
    end.

(** Modelled from the spec: "processing -> failed: the required-tier
    completion set cannot be satisfied"; "a non-required ... tier's
    failure alone never fails the video".  The transition carries the
    guaranteed progress write. *)
Definition on_tier_failed (cfg : Config) (now : DateTime) (gen : nat)
  (l : string) (s : State) : Refusal + State * list Effect :=
  fenced gen s
    match find_tier cfg l with
    | None => inl UnknownTier
    | Some t =>
        let s1 := mkState (video s) (qualities s) (generation s) (probed s)
                    (tier_percent s) (completed s) (add l (failed_tiers s)) in
        if required t
        then
          let v := Video.set_processing_progress (progress_now cfg s1) (video s1) in
          let v := Video.set_error_message (summarize (failed_tiers s1)) v in
          inr (with_video (Video.touch now (Video.set_status Video.FAILED v)) s1,
               [WriteVideo])
        else inr (s1, [])
    end.

(** Modelled from the spec: "processing -> ready: all required quality
    tiers ... completed successfully.  published_at is stamped at this
    transition if the video's requested visibility is non-private"; "a
    duplicate all-tiers-complete signal after finalization is a no-op, not
    an error". *)
Definition on_all_required_complete (cfg : Config) (now : DateTime)
  (gen : nat) (s : State) : Refusal + State * list Effect :=
  fenced gen s
    (if required_done cfg s
     then
       let v := Video.set_processing_progress (progress_now cfg s) (video s) in
       let v :=
         if String.eqb (Video.visibility v) Video.PRIVATE
         then v
         else Video.set_published_at (Some now) v in
       inr (with_video (Video.touch now (Video.set_status Video.READY v)) s,
            [WriteVideo])
     else inl IllegalTransition).

(** Modelled from the spec: "failed may be resubmitted, transitioning back
    to processing (progress reset to 0, error_message cleared)"; the
    generation counter moves on and the previous attempt's tasks are
    cancelled (section 5). *)
Definition on_resubmit (now : DateTime) (s : State)
  : Refusal + State * list Effect :=
  match state_of s with
  | Some Video.FAILED =>
      let v := Video.set_processing_progress 0 (video s) in
      let v := Video.set_error_message "" v in
      let v := Video.touch now (Video.set_status Video.PROCESSING v) in
      inr (mkState v (qualities s) (S (generation s)) (probed s) [] [] [],
           [CancelWorkers (generation s); WriteVideo;
            StartWorkers (S (generation s))])
  | _ => inl IllegalTransition
  end.

(** Modelled from the spec: "title/description/visibility edits by the
    owning user" are the only writes besides the Coordinator's. *)
Definition on_edit (now : DateTime) (editor : AutoId)
  (assign : Video.t -> Video.t) (s : State) : Refusal + State * list Effect :=
  if editor =? Video.user (video s)
  then inr (with_video (Video.touch now (assign (video s))) s, [WriteVideo])
  else inl NotOwner.

(** Modelled from the spec: the Coordinator as one guarded transition
    function over its signals. *)
Definition step (cfg : Config) (now : DateTime) (e : Event) (s : State)
  : Refusal + State * list Effect :=
  match e with
  | UploadComplete probe => on_upload_complete now probe s
  | WorkerProgress gen l pct flush => on_worker_progress cfg now gen l pct flush s
  | TierCompleted gen l r => on_tier_completed cfg now gen l r s
  | TierFailed gen l _ => on_tier_failed cfg now gen l s
  | AllRequiredComplete gen => on_all_required_complete cfg now gen s
  | Resubmit => on_resubmit now s
  | EditTitle editor x => on_edit now editor (Video.set_title x) s
  | EditDescription editor x => on_edit now editor (Video.set_description x) s
  | EditVisibility editor x => on_edit now editor (Video.set_visibility x) s
  end.

(** Modelled from the spec: failures "are never propagated as
    exceptions/crashes of the Coordinator process": a refused signal
    leaves the state as it was and the Coordinator goes on. *)
Definition deliver (cfg : Config) (te : DateTime * Event) (s : State) : State :=
  match step cfg (fst te) (snd te) s with
  | inr (s', _) => s'
  | inl _ => s
  end.

(** Modelled from the spec: signals arrive in some order ("safe under
    arbitrary interleaving"), each with the time of its delivery. *)
Definition run (cfg : Config) (tes : list (DateTime * Event)) (s : State)
  : State :=
  fold_left (fun acc te => deliver cfg te acc) tes s.

(** Modelled from the spec: a Video is "created at upload start
    (status=uploading)"; [tb] is the [video_qualities] table at that
    moment. *)
Definition open_upload (new_id : UUID) (owner : AutoId) (ttl : string)
  (vis : option Video.Visibility) (now : DateTime)
  (tb : VideoQuality.table) : State :=
  {| video := Video.create new_id owner ttl
                {| Video.kw_description := None;
                   Video.kw_status := None;
                   Video.kw_visibility := vis |} now;
     qualities := tb;
     generation := 0%nat;
     probed := None;
     tier_percent := [];
     completed := [];
     failed_tiers := [] |}.

End Coordinator.

(** A configuration and an upload used to evaluate the Coordinator at
    concrete inputs: two required tiers and an optional one, as in the
    scenarios of section 8. *)
Definition sample_config : Coordinator.Config :=
  [Coordinator.mkTier "480p" 854 480 1000%N true;
   Coordinator.mkTier "720p" 1280 720 2500%N true;
   Coordinator.mkTier "1080p" 1920 1080 5000%N false].

Definition sample_probe : Coordinator.ProbeInfo :=
  Coordinator.mkProbeInfo 60%N 1280 720 true 1048576.

Definition sample_file : Coordinator.Rendition :=
  Coordinator.mkRendition "videos/out.mp4" "videos/out.m3u8" (Some 4096).

Definition sample_upload : Coordinator.State :=
  Coordinator.open_upload 1%N 7 "Launch day" None 1000 empty_table.

(** The upload after a successful Probe and the completion of both
    required tiers. *)
Definition sample_transcoded : Coordinator.State :=
  Coordinator.run sample_config
    [(1001, Coordinator.UploadComplete (inr sample_probe));
     (1002, Coordinator.WorkerProgress 0 "480p" 40%N true);
     (1003, Coordinator.TierCompleted 0 "720p" sample_file);
     (1004, Coordinator.TierCompleted 0 "480p" sample_file)]
    sample_upload.

(* ===================================================================== *)
(** * Part III. Properties                                                *)
(* ===================================================================== *)

(** ** Tables under a [unique_together] constraint *)

Section UniqueTogetherFacts.

Context {Row Key : Type}.
Variable key : Row -> Key.
Variable Key_eqb : Key -> Key -> bool.
Variable pk : Row -> AutoId.
Variable with_pk : AutoId -> Row -> Row.
Hypothesis Key_eqb_eq : forall a b, Key_eqb a b = true <-> a = b.
Hypothesis pk_with_pk : forall n r, pk (with_pk n r) = n.
Hypothesis key_with_pk : forall n r, key (with_pk n r) = key r.

Lemma NoDup_snoc {A : Type} (l : list A) (x : A) :
  NoDup l -> ~ In x l -> NoDup (l ++ [x]).
Proof.
  induction l as [|a l IH]; intros Hnd Hx; simpl.
  - constructor; [intros [] | constructor].
  - inversion Hnd as [|? ? Ha Hl]; subst.
    constructor.
    + rewrite in_app_iff. intros [H | [H | []]]; [tauto |].
      subst. apply Hx. now left.
    + apply IH; [assumption |]. intros H. apply Hx. now right.
Qed.

Lemma NoDup_map_filter {A B : Type} (f : A -> B) (g : A -> bool) (l : list A) :
  NoDup (map f l) -> NoDup (map f (filter g l)).
Proof.
  induction l as [|a l IH]; simpl; intros Hnd; [constructor |].
  inversion Hnd as [|? ? Ha Hl]; subst.
  destruct (g a); simpl; [constructor |]; auto.
  intros Hin. apply Ha.
  apply in_map_iff in Hin. destruct Hin as [y [Hy Hin]].
  apply filter_In in Hin. apply in_map_iff. exists y. tauto.
Qed.

Lemma no_conflict_not_in (k : Key) (l : list Row) :
  existsb (has_key key Key_eqb k) l = false -> ~ In k (map key l).
Proof.
  intros Hex Hin. apply in_map_iff in Hin. destruct Hin as [y [Hy Hin]].
  assert (Ht : existsb (has_key key Key_eqb k) l = true).
  { apply existsb_exists. exists y. split; [assumption |].
    unfold has_key. apply Key_eqb_eq. assumption. }
  congruence.
Qed.

Lemma insert_ok (r : Row) (t t' : Table) :
  table_ok key pk t -> insert key Key_eqb with_pk r t = inr t' ->
  table_ok key pk t'.
Proof.
  unfold table_ok, insert. intros [Hk [Hp Hlt]] Hins.
  destruct (existsb _ _) eqn:Hex; [discriminate |].
  inversion Hins; subst; clear Hins. simpl.
  rewrite !map_app. simpl. rewrite key_with_pk, pk_with_pk.
  split; [| split].
  - apply NoDup_snoc; [assumption |]. now apply no_conflict_not_in.
  - apply NoDup_snoc; [assumption |].
    intros Hin. apply in_map_iff in Hin. destruct Hin as [y [Hy Hin]].
    rewrite Forall_forall in Hlt. specialize (Hlt y Hin). lia.
  - apply Forall_app. split.
    + eapply Forall_impl; [| exact Hlt]. simpl. intros; lia.
    + constructor; [rewrite pk_with_pk; lia | constructor].
Qed.

Lemma update_keeps_pks (p : AutoId) (r : Row) (l : list Row) :
  map pk (map (fun x => if pk x =? p then with_pk p r else x) l) = map pk l.
Proof.
  induction l as [|x l IH]; simpl; [reflexivity |].
  rewrite IH. destruct (pk x =? p) eqn:E; [| reflexivity].
  rewrite pk_with_pk. apply Z.eqb_eq in E. now rewrite E.
Qed.

Lemma update_without_row (p : AutoId) (r : Row) (l : list Row) :
  existsb (fun x => pk x =? p) l = false ->
  map (fun x => if pk x =? p then with_pk p r else x) l = l.
Proof.
  induction l as [|x l IH]; simpl; intros H; [reflexivity |].
  apply orb_false_iff in H. destruct H as [Hx Hl].
  rewrite Hx, (IH Hl). reflexivity.
Qed.

Lemma update_keeps_keys_unique (p : AutoId) (r : Row) (l : list Row) :
  NoDup (map key l) -> NoDup (map pk l) ->
  existsb (fun x => negb (pk x =? p) && has_key key Key_eqb (key r) x) l = false ->
  NoDup (map key (map (fun x => if pk x =? p then with_pk p r else x) l)).
Proof.
  induction l as [|x l IH]; simpl; intros Hk Hp Hex; [constructor |].
  inversion Hk as [|? ? Hkx Hkl]; subst.
  inversion Hp as [|? ? Hpx Hpl]; subst.
  apply orb_false_iff in Hex. destruct Hex as [Hx Hex].
  constructor; [| now apply IH].
  intros Hin. apply in_map_iff in Hin. destruct Hin as [z [Hz Hin]].
  apply in_map_iff in Hin. destruct Hin as [y [Hy Hin]].
  assert (Hother : pk y <> p -> key y <> key r).
  { intros Hne Heq.
    assert (Ht : existsb
              (fun x0 => negb (pk x0 =? p) && has_key key Key_eqb (key r) x0) l
              = true).
    { apply existsb_exists. exists y. split; [assumption |].
      apply andb_true_iff. split.
      - apply negb_true_iff. now apply Z.eqb_neq.
      - unfold has_key. now apply Key_eqb_eq. }
    congruence. }
  destruct (pk x =? p) eqn:Ex.
  - (* the head is the row rewritten: nothing below it carries [p] *)
    apply Z.eqb_eq in Ex. rewrite key_with_pk in Hz.
    destruct (pk y =? p) eqn:Ey.
    + apply Z.eqb_eq in Ey. apply Hpx. apply in_map_iff.
      exists y. split; [congruence | assumption].
    + apply Z.eqb_neq in Ey. subst z. now apply (Hother Ey).
  - (* the head stays: it differs from the new key and from every old one *)
    simpl in Hx. unfold has_key in Hx.
    destruct (pk y =? p) eqn:Ey.
    + subst z. rewrite key_with_pk in Hz.
      assert (Ht : Key_eqb (key x) (key r) = true)
        by (apply Key_eqb_eq; congruence).
      congruence.
    + subst z. apply Hkx. apply in_map_iff. exists y. tauto.
Qed.

Lemma update_ok (p : AutoId) (r : Row) (t t' : Table) :
  table_ok key pk t -> update key Key_eqb pk with_pk p r t = inr t' ->
  table_ok key pk t'.
Proof.
  unfold table_ok, update. intros [Hk [Hp Hlt]] Hup.
  destruct (existsb (fun x => pk x =? p) (rows t)) eqn:Hrow;
    destruct (existsb (fun x => negb (pk x =? p) && _) (rows t)) eqn:Hex;
    simpl in Hup; try discriminate;
    inversion Hup; subst; clear Hup; simpl.
  2, 3: rewrite (update_without_row _ _ _ Hrow); tauto.
  split; [| split].
  - now apply update_keeps_keys_unique.
  - now rewrite update_keeps_pks.
  - rewrite Forall_forall in *. intros z Hin.
    apply in_map_iff in Hin. destruct Hin as [y [Hy Hin]].
    specialize (Hlt y Hin).
    destruct (pk y =? p) eqn:Ey; subst z; [| assumption].
    rewrite pk_with_pk. apply Z.eqb_eq in Ey. lia.
Qed.

Lemma delete_where_ok (f : Row -> bool) (t : Table) :
  table_ok key pk t -> table_ok key pk (delete_where f t).
Proof.
  unfold table_ok, delete_where. intros [Hk [Hp Hlt]]. simpl.
  split; [| split]; try now apply NoDup_map_filter.
  rewrite Forall_forall in *. intros z Hin.
  apply filter_In in Hin. now apply Hlt.
Qed.

Lemma commit_ok (s : Statement) (t : Table) :
  table_ok key pk t -> table_ok key pk (commit key Key_eqb pk with_pk s t).
Proof.
  intros Hok. unfold commit.
  destruct (execute key Key_eqb pk with_pk s t) as [e | t'] eqn:Hex;
    [assumption |].
  destruct s; simpl in Hex.
  - eapply insert_ok; eassumption.
  - eapply update_ok; eassumption.
  - inversion Hex; subst. now apply delete_where_ok.
  - inversion Hex; subst. now apply delete_where_ok.
Qed.

Lemma run_statements_ok (ss : list Statement) (t : Table) :
  table_ok key pk t ->
  table_ok key pk (run_statements key Key_eqb pk with_pk ss t).
Proof.
  unfold run_statements. revert t.
  induction ss as [|s ss IH]; intros t Hok; simpl; [assumption |].
  apply IH. now apply commit_ok.
Qed.

Lemma empty_table_ok : table_ok key pk (@empty_table Row).
Proof.
  unfold table_ok, empty_table. simpl.
  repeat split; constructor.
Qed.

(** Distinct keys leave at most one row under each key. *)
Lemma unique_at_most_one (k : Key) (l : list Row) :
  NoDup (map key l) ->
  (List.length (filter (has_key key Key_eqb k) l) <= 1)%nat.
Proof.
  induction l as [|x l IH]; simpl; intros Hnd; [lia |].
  inversion Hnd as [|? ? Hx Hl]; subst.
  specialize (IH Hl).
  destruct (has_key key Key_eqb k x) eqn:Hk; [| assumption].
  simpl.
  assert (Hnone : filter (has_key key Key_eqb k) l = []).
  { destruct (filter (has_key key Key_eqb k) l) as [|y ys] eqn:Hf;
      [reflexivity |].
    exfalso. apply Hx.
    assert (Hy : In y (filter (has_key key Key_eqb k) l))
      by (rewrite Hf; now left).
    apply filter_In in Hy. destruct Hy as [Hy Hky].
    unfold has_key in Hk, Hky.
    apply Key_eqb_eq in Hk. apply Key_eqb_eq in Hky.
    apply in_map_iff. exists y. split; [congruence | assumption]. }
  rewrite Hnone. simpl. lia.
Qed.

Lemma matching_at_most_one (k : Key) (t : Table) :
  table_ok key pk t -> (List.length (matching key Key_eqb k t) <= 1)%nat.
Proof.
  intros [Hk _]. unfold matching. now apply unique_at_most_one.
Qed.

(** A second INSERT under a key that is taken is refused. *)
Lemma insert_taken (r : Row) (t : Table) :
  In (key r) (map key (rows t)) ->
  insert key Key_eqb with_pk r t = inl IntegrityError.
Proof.
  intros Hin. unfold insert.
  destruct (existsb _ _) eqn:Hex; [reflexivity |].
  exfalso. now apply (no_conflict_not_in _ _ Hex).
Qed.

End UniqueTogetherFacts.

(** ** The two constrained tables of the schema *)

Lemma VideoQuality_key_eqb_eq (a b : UUID * string) :
  VideoQuality.key_eqb a b = true <-> a = b.
Proof.
  destruct a as [v q], b as [v' q']. unfold VideoQuality.key_eqb. simpl.
  rewrite andb_true_iff, N.eqb_eq, String.eqb_eq.
  split; [intros [-> ->]; reflexivity | intros H; inversion H; auto].
Qed.

Lemma PlaylistVideo_key_eqb_eq (a b : UUID * UUID) :
  PlaylistVideo.key_eqb a b = true <-> a = b.
Proof.
  destruct a as [p v], b as [p' v']. unfold PlaylistVideo.key_eqb. simpl.
  rewrite andb_true_iff, !N.eqb_eq.
  split; [intros [-> ->]; reflexivity | intros H; inversion H; auto].
Qed.

(** C4. For every video and tier there is at most one [VideoQuality] row
    under the pair (video, quality_name), after any sequence of statements
    on the table: inserts, updates, deletes and cascading deletes, in any
    interleaving, so also when two completions of the same tier race.  The
    constraint of [Meta.unique_together] is kept by every statement, and an
    INSERT under a pair that is present is refused with [IntegrityError]. *)
Theorem video_quality_one_row_per_tier
  (tb : VideoQuality.table) (ss : list VideoQuality.statement)
  (v : UUID) (q : string) (r : VideoQuality.t) :
  table_ok VideoQuality.unique_key VideoQuality.id tb ->
  table_ok VideoQuality.unique_key VideoQuality.id (VideoQuality.run ss tb)
  /\ (List.length (VideoQuality.renditions v q (VideoQuality.run ss tb)) <= 1)%nat
  /\ (In (VideoQuality.unique_key r)
         (map VideoQuality.unique_key (rows (VideoQuality.run ss tb))) ->
      VideoQuality.run [Insert r] (VideoQuality.run ss tb)
      = VideoQuality.run ss tb).
Proof.
  intros Hok.
  assert (Hrun : table_ok VideoQuality.unique_key VideoQuality.id
                   (VideoQuality.run ss tb)).
  { apply run_statements_ok; auto using VideoQuality_key_eqb_eq. }
  split; [exact Hrun | split].
  - unfold VideoQuality.renditions.
    apply (matching_at_most_one _ _ VideoQuality.id);
      auto using VideoQuality_key_eqb_eq.
  - intros Hin.
    pose proof (insert_taken _ _ VideoQuality.with_id VideoQuality_key_eqb_eq
                  _ _ Hin) as Hrefused.
    change (VideoQuality.run [Insert r] (VideoQuality.run ss tb))
      with (commit VideoQuality.unique_key VideoQuality.key_eqb VideoQuality.id
              VideoQuality.with_id (Insert r) (VideoQuality.run ss tb)).
    unfold commit, execute. now rewrite Hrefused.
Qed.

Lemma video_quality_one_row_per_tier_witness :
  table_ok VideoQuality.unique_key VideoQuality.id (@empty_table VideoQuality.t)
  /\ (List.length
        (VideoQuality.renditions 1%N "720p"
           (VideoQuality.run
              [Insert (sample_rendition 1%N "720p");
               Insert (sample_rendition 1%N "480p");
               Insert (sample_rendition 1%N "720p");
               Update 2%Z (sample_rendition 1%N "720p");
               VideoQuality.cascade_delete 3%N]
              empty_table)) <= 1)%nat.
Proof.
  assert (H0 : table_ok VideoQuality.unique_key VideoQuality.id
                 (@empty_table VideoQuality.t)).
  { unfold table_ok, empty_table. simpl. repeat split; constructor. }
  split; [exact H0 |].
  exact (proj1 (proj2 (video_quality_one_row_per_tier empty_table
                         [Insert (sample_rendition 1%N "720p");
                          Insert (sample_rendition 1%N "480p");
                          Insert (sample_rendition 1%N "720p");
                          Update 2%Z (sample_rendition 1%N "720p");
                          VideoQuality.cascade_delete 3%N]
                         1%N "720p" (sample_rendition 1%N "720p") H0))).
Defined.

(** C10. A video appears at most once in a playlist: after any sequence of
    statements on [playlist_videos] there is at most one row under the pair
    (playlist, video).  Every insertion keeps it so: when
    [add_to_playlist] stores an entry, the playlist did not hold the video
    before and holds it exactly once afterwards, the table still meets its
    constraints and adding the video again is refused; and adding a video
    that the playlist holds already is refused. *)
Theorem playlist_holds_video_once
  (db : Database.t) (ss : list PlaylistVideo.statement)
  (p v : UUID) (o : Z) (now : DateTime) :
  table_ok PlaylistVideo.unique_key PlaylistVideo.id
    (Database.playlist_videos db) ->
  (List.length
     (PlaylistVideo.entries p v
        (PlaylistVideo.run ss (Database.playlist_videos db))) <= 1)%nat
  /\ (forall db', Database.add_to_playlist p v o now db = inr db' ->
        PlaylistVideo.entries p v (Database.playlist_videos db) = []
        /\ List.length
             (PlaylistVideo.entries p v (Database.playlist_videos db')) = 1%nat
        /\ table_ok PlaylistVideo.unique_key PlaylistVideo.id
             (Database.playlist_videos db')
        /\ forall (o' : Z) (now' : DateTime),
             Database.add_to_playlist p v o' now' db' = inl IntegrityError)
  /\ (PlaylistVideo.entries p v (Database.playlist_videos db) <> [] ->
      Database.add_to_playlist p v o now db = inl IntegrityError).
Proof.
  intros Hok.
  assert (Hone : forall t,
            table_ok PlaylistVideo.unique_key PlaylistVideo.id t ->
            existsb (has_key PlaylistVideo.unique_key PlaylistVideo.key_eqb (p, v))
              (rows t) = true ->
            List.length (PlaylistVideo.entries p v t) = 1%nat).
  { intros t Ht Hex.
    pose proof (matching_at_most_one PlaylistVideo.unique_key
                  PlaylistVideo.key_eqb PlaylistVideo.id
                  PlaylistVideo_key_eqb_eq (p, v) t Ht) as Hle.
    unfold PlaylistVideo.entries, matching in *.
    apply existsb_exists in Hex. destruct Hex as [y [Hy Hk]].
    assert (Hin : In y (filter
              (has_key PlaylistVideo.unique_key PlaylistVideo.key_eqb (p, v))
              (rows t))) by (apply filter_In; tauto).
    destruct (filter _ (rows t)); [destruct Hin | simpl in *; lia]. }
  assert (Hnone : forall t,
            existsb (has_key PlaylistVideo.unique_key PlaylistVideo.key_eqb (p, v))
              (rows t) = false ->
            PlaylistVideo.entries p v t = []).
  { intros t Hex. unfold PlaylistVideo.entries, matching.
    induction (rows t) as [|x l IH]; simpl in *; [reflexivity |].
    apply orb_false_iff in Hex. destruct Hex as [Hx Hl].
    rewrite Hx. now apply IH. }
  assert (Htaken : forall (o' : Z) (now' : DateTime) (d : Database.t),
            existsb (has_key PlaylistVideo.unique_key PlaylistVideo.key_eqb (p, v))
              (rows (Database.playlist_videos d)) = true ->
            Database.add_to_playlist p v o' now' d = inl IntegrityError).
  { intros o' now' d Hex. unfold Database.add_to_playlist.
    destruct (Database.mem_id p (Database.playlist_ids d)
              && Database.mem_id v (Database.video_ids d)); [| reflexivity].
    unfold PlaylistVideo.add, insert.
    change (PlaylistVideo.unique_key _) with (p, v).
    now rewrite Hex. }
  split; [| split].
  - unfold PlaylistVideo.entries.
    apply (matching_at_most_one _ _ PlaylistVideo.id);
      auto using PlaylistVideo_key_eqb_eq.
    apply run_statements_ok; auto using PlaylistVideo_key_eqb_eq.
  - intros db' Hadd. unfold Database.add_to_playlist in Hadd.
    destruct (Database.mem_id p (Database.playlist_ids db)
              && Database.mem_id v (Database.video_ids db)); [| discriminate].
    destruct (PlaylistVideo.add p v o now (Database.playlist_videos db))
      as [e | tb'] eqn:Hins; [discriminate |].
    inversion Hadd; subst; clear Hadd. simpl.
    unfold PlaylistVideo.add in Hins.
    assert (Hok' : table_ok PlaylistVideo.unique_key PlaylistVideo.id tb').
    { eapply insert_ok; try exact Hins; auto using PlaylistVideo_key_eqb_eq. }
    unfold insert in Hins.
    destruct (existsb _ (rows (Database.playlist_videos db))) eqn:Hex;
      [discriminate |].
    inversion Hins; subst; clear Hins.
    assert (Hnow : existsb
              (has_key PlaylistVideo.unique_key PlaylistVideo.key_eqb (p, v))
              (rows (Database.playlist_videos db)
               ++ [PlaylistVideo.with_id (next_pk (Database.playlist_videos db))
                     {| PlaylistVideo.id := 0; PlaylistVideo.playlist := p;
                        PlaylistVideo.video := v; PlaylistVideo.order := o;
                        PlaylistVideo.added_at := now |}])%list = true).
    { rewrite existsb_app. apply orb_true_iff. right. simpl.
      unfold has_key, PlaylistVideo.unique_key, PlaylistVideo.key_eqb. simpl.
      now rewrite !N.eqb_refl. }
    split; [exact (Hnone _ Hex) | split; [| split]].
    + apply Hone; [exact Hok' | exact Hnow].
    + exact Hok'.
    + intros o' now'. apply Htaken. exact Hnow.
  - intros Hheld. apply Htaken.
    destruct (existsb
                (has_key PlaylistVideo.unique_key PlaylistVideo.key_eqb (p, v))
                (rows (Database.playlist_videos db))) eqn:Hex; [reflexivity |].
    exfalso. apply Hheld. now apply Hnone.
Qed.

Lemma playlist_holds_video_once_witness :
  table_ok PlaylistVideo.unique_key PlaylistVideo.id
    (Database.playlist_videos Database.empty)
  /\ (List.length
        (PlaylistVideo.entries 5%N 1%N
           (PlaylistVideo.run
              [Insert (PlaylistVideo.mk 0%Z 5%N 1%N 0%Z 1000%Z);
               Insert (PlaylistVideo.mk 0%Z 5%N 1%N 3%Z 1001%Z)]
              (Database.playlist_videos Database.empty))) <= 1)%nat.
Proof.
  assert (H0 : table_ok PlaylistVideo.unique_key PlaylistVideo.id
                 (Database.playlist_videos Database.empty)).
  { unfold table_ok, empty_table. simpl. repeat split; constructor. }
  split; [exact H0 |].
  exact (proj1 (playlist_holds_video_once Database.empty
                  [Insert (PlaylistVideo.mk 0%Z 5%N 1%N 0%Z 1000%Z);
                   Insert (PlaylistVideo.mk 0%Z 5%N 1%N 3%Z 1001%Z)]
                  5%N 1%N 0%Z 1000%Z H0)).
Defined.

(** ** The choice columns of [Video] *)

Lemma status_field_clean_iff (x : string) :
  CharField_clean Video.status_field x = true
  <-> In x ["uploading"; "processing"; "ready"; "failed"]%string.
Proof.
  unfold CharField_clean, Video.status_field, in_choices. simpl.
  split.
  - intros H.
    apply andb_true_iff in H. destruct H as [H _].
    apply andb_true_iff in H. destruct H as [_ H].
    repeat (apply orb_true_iff in H; destruct H as [H | H];
            [apply String.eqb_eq in H; subst; simpl; tauto |]).
    discriminate.
  - intros [H | [H | [H | [H | []]]]]; subst; reflexivity.
Qed.

(** C9. A Video created without a visibility gets 'public', not
    'unlisted' and not 'private', so the condition under which
    [published_at] may be stamped (visibility other than private) holds
    for it. *)
Theorem visibility_defaults_to_public
  (new_id : UUID) (owner : AutoId) (ttl : string)
  (d : option string) (st : option Video.Status) (now : DateTime) :
  Video.visibility
    (Video.create new_id owner ttl
       {| Video.kw_description := d;
          Video.kw_status := st;
          Video.kw_visibility := None |} now) = Video.PUBLIC
  /\ default Video.visibility_field = Some "public"%string
  /\ Video.Visibility_value Video.visibility_default = "public"%string
  /\ Video.visibility_default <> Video.PRIVATE
  /\ Video.visibility_default <> Video.UNLISTED
  /\ Video.Visibility_eqb Video.visibility_default Video.PRIVATE = false.
Proof.
  repeat split; try reflexivity; discriminate.
Qed.

(** ** Writes to table [videos]

    [save] stores the row it is given under that row's primary key. *)

Lemma get_some_id (i : UUID) (tb : Video.table) (v : Video.t) :
  Video.get i tb = Some v -> Video.id v = i.
Proof.
  unfold Video.get. intros H. apply find_some in H.
  destruct H as [_ H]. now apply N.eqb_eq.
Qed.

Lemma get_save (v : Video.t) (now : DateTime) (tb : Video.table) :
  existsb (fun x => (Video.id x =? Video.id v)%N) tb = true ->
  Video.get (Video.id v) (Video.save v now tb) = Some (Video.touch now v).
Proof.
  unfold Video.save, Video.get. intros Hex. rewrite Hex.
  induction tb as [|x tb IH]; simpl in *; [discriminate |].
  destruct (Video.id x =? Video.id v)%N eqn:E; simpl.
  - now rewrite N.eqb_refl.
  - rewrite E. now apply IH.
Qed.

Lemma get_some_exists (i : UUID) (tb : Video.table) (v : Video.t) :
  Video.get i tb = Some v ->
  existsb (fun x => (Video.id x =? i)%N) tb = true.
Proof.
  unfold Video.get. intros H. apply find_some in H.
  apply existsb_exists. exists v. exact H.
Qed.

Lemma get_write (i : UUID) (assign : Video.t -> Video.t) (now : DateTime)
  (tb : Video.table) (v : Video.t) :
  Video.get i tb = Some v -> Video.id (assign v) = Video.id v ->
  Video.get i (Video.write i assign now tb) = Some (Video.touch now (assign v)).
Proof.
  intros Hget Hid. unfold Video.write. rewrite Hget.
  pose proof (get_some_exists _ _ _ Hget) as Hex.
  rewrite <- (get_some_id _ _ _ Hget) in *. rewrite <- Hid in *.
  now apply get_save.
Qed.

(** ** The Coordinator of Part II *)

Import Coordinator.

(** Case analysis of one delivery: unfold the handler, then split on
    every guard it tests. *)
Ltac unfold_handlers :=
  unfold deliver; simpl fst; simpl snd; simpl step;
  unfold on_upload_complete, on_worker_progress, on_tier_completed,
         on_tier_failed, on_all_required_complete, on_resubmit, on_edit,
         fenced.

(** The status column of a row names member [st] only by holding the wire
    value of [st]. *)
Lemma Status_of_value_some (x : string) (st : Video.Status) :
  Video.Status_of_value x = Some st -> x = Video.Status_value st.
Proof.
  unfold Video.Status_of_value. intros H. apply find_some in H.
  destruct H as [_ H]. apply String.eqb_eq in H. congruence.
Qed.

Lemma state_of_status (s : State) (st : Video.Status) :
  Video.status (video s) = Video.Status_value st -> state_of s = Some st.
Proof.
  unfold state_of. intros ->. destruct st; reflexivity.
Qed.

(** Case analysis of one delivery on the state the row is in, if any. *)
Ltac by_state s Hst Hval :=
  destruct (state_of s) as [[] |] eqn:Hst;
  [pose proof (Status_of_value_some _ _ Hst) as Hval ..
  | idtac].

Ltac split_guards :=
  repeat match goal with
         | |- context [if ?b then _ else _] => destruct b; simpl
         | |- context [match find_tier ?c ?l with _ => _ end] =>
             destruct (find_tier c l); simpl
         | |- context [match insert ?a ?b ?c ?d ?e with _ => _ end] =>
             destruct (insert a b c d e) as [[] | ?]; simpl
         | |- context [match ?p with inl _ => _ | inr _ => _ end] =>
             is_var p; destruct p; simpl
         end.

(** The scenarios of section 8, run on the model.  Two required tiers
    succeed and the optional one fails: the video ends ready with two
    renditions, no error message and a stamp. *)
Example scenario_optional_tier_fails :
  let s := run sample_config
             [(1005, TierFailed 0 "1080p" EncodingFailed);
              (1006, AllRequiredComplete 0)] sample_transcoded in
  Video.status (video s) = Video.READY
  /\ List.length (rows (qualities s)) = 2%nat
  /\ Video.error_message (video s) = ""%string
  /\ Video.published_at (video s) = Some 1006
  /\ Video.processing_progress (video s) = 4.
Proof. repeat split; reflexivity. Qed.

(** A required tier fails for good: the video ends failed, the message
    names the tier, nothing is published; resubmission starts the next
    generation at progress 0 with the message cleared, and a late result
    of the previous generation is discarded. *)
Example scenario_required_tier_fails :
  let s := run sample_config
             [(1001, UploadComplete (inr sample_probe));
              (1002, WorkerProgress 0 "720p" 50%N true);
              (1003, TierFailed 0 "720p" StorageUnavailable)] sample_upload in
  let s' := run sample_config
              [(1004, Resubmit); (1005, TierCompleted 0 "480p" sample_file)] s in
  Video.status (video s) = Video.FAILED
  /\ Video.error_message (video s) = "transcoding failed for: 720p"%string
  /\ Video.published_at (video s) = None
  /\ Video.processing_progress (video s) = 14
  /\ Video.status (video s') = Video.PROCESSING
  /\ Video.processing_progress (video s') = 0
  /\ Video.error_message (video s') = ""%string
  /\ generation s' = 1%nat
  /\ rows (qualities s') = [].
Proof. repeat split; reflexivity. Qed.

(** A signal delivered while the video is uploading either takes it out of
    that status or leaves status, renditions, progress and stamp alone. *)
Lemma deliver_uploading (cfg : Config) (te : DateTime * Event) (s : State) :
  Video.status (video (deliver cfg te s)) = Video.UPLOADING ->
  Video.status (video s) = Video.UPLOADING
  /\ qualities (deliver cfg te s) = qualities s
  /\ Video.processing_progress (video (deliver cfg te s))
     = Video.processing_progress (video s)
  /\ Video.published_at (video (deliver cfg te s))
     = Video.published_at (video s)
  /\ Video.error_message (video (deliver cfg te s))
     = Video.error_message (video s).
Proof.
  destruct te as [now e].
  by_state s Hst Hval; destruct e;
    unfold_handlers; rewrite ?Hst; simpl; split_guards;
    rewrite ?Hval; simpl; try tauto;
    try (intros Habs; discriminate Habs);
    intros Habs; repeat split; try reflexivity;
    try (rewrite Hval in Habs; discriminate Habs); exact Habs.
Qed.

Lemma run_snoc (cfg : Config) (tes : list (DateTime * Event))
  (te : DateTime * Event) (s : State) :
  run cfg (tes ++ [te]) s = deliver cfg te (run cfg tes s).
Proof. unfold run. now rewrite fold_left_app. Qed.

Lemma run_app (cfg : Config) (l1 l2 : list (DateTime * Event)) (s : State) :
  run cfg (l1 ++ l2) s = run cfg l2 (run cfg l1 s).
Proof. unfold run. now rewrite fold_left_app. Qed.

(** No transition leads back into 'uploading': a video found uploading
    after a run was uploading all along. *)
Lemma uploading_all_along (cfg : Config) (l1 l2 : list (DateTime * Event))
  (s : State) :
  Video.status (video (run cfg (l1 ++ l2) s)) = Video.UPLOADING ->
  Video.status (video (run cfg l1 s)) = Video.UPLOADING.
Proof.
  induction l2 as [|te l2 IH] using rev_ind; intros H.
  - now rewrite app_nil_r in H.
  - rewrite app_assoc, run_snoc in H.
    apply deliver_uploading in H. apply IH. tauto.
Qed.

(** While a video is uploading, nothing but its owner's edits has touched
    it: renditions, progress, stamp and error message are as at creation. *)
Lemma uploading_is_untouched (cfg : Config) (tes : list (DateTime * Event))
  (s0 : State) :
  Video.status (video (run cfg tes s0)) = Video.UPLOADING ->
  qualities (run cfg tes s0) = qualities s0
  /\ Video.processing_progress (video (run cfg tes s0))
     = Video.processing_progress (video s0)
  /\ Video.published_at (video (run cfg tes s0)) = Video.published_at (video s0)
  /\ Video.error_message (video (run cfg tes s0)) = Video.error_message (video s0).
Proof.
  induction tes as [|te tes IH] using rev_ind; intros H.
  - simpl. tauto.
  - rewrite run_snoc in *.
    destruct (deliver_uploading _ _ _ H) as [Hup [Hq [Hp [Hs He]]]].
    destruct (IH Hup) as [IHq [IHp [IHs IHe]]].
    repeat split; congruence.
Qed.

(** C6. When the Probe fails on a video that is uploading, the video goes
    from 'uploading' straight to 'failed': it was never 'processing' at any
    earlier point, [error_message] is the probe error, the table of
    renditions is the one the upload started with, and
    [processing_progress] is still 0 (and nothing is published). *)
Theorem probe_failure_fails_the_upload
  (cfg : Config) (new_id : UUID) (owner : AutoId) (ttl : string)
  (vis : option Video.Visibility) (t0 : DateTime) (tb : VideoQuality.table)
  (tes : list (DateTime * Event)) (err : ProbeError) (now : DateTime) :
  let s0 := open_upload new_id owner ttl vis t0 tb in
  let s := run cfg tes s0 in
  let s' := deliver cfg (now, UploadComplete (inl err)) s in
  Video.status (video s) = Video.UPLOADING ->
  step cfg now (UploadComplete (inl err)) s = inr (s', [WriteVideo])
  /\ Video.status (video s') = Video.FAILED
  /\ Video.error_message (video s') = probe_message err
  /\ qualities s' = tb
  /\ Video.processing_progress (video s') = 0
  /\ Video.published_at (video s') = None
  /\ (forall k : nat,
         Video.status (video (run cfg (firstn k tes) s0)) = Video.UPLOADING).
Proof.
  intros s0 s s' Hup.
  destruct (uploading_is_untouched cfg tes s0 Hup) as [Hq [Hp [Hs _]]].
  fold s in Hq, Hp, Hs.
  assert (Hstep : step cfg now (UploadComplete (inl err)) s
                  = inr (with_video
                           (Video.touch now
                              (Video.set_status Video.FAILED
                                 (Video.set_error_message (probe_message err)
                                    (video s)))) s,
                         [WriteVideo])).
  { simpl. unfold on_upload_complete.
    now rewrite (state_of_status s Video.UPLOADING Hup). }
  assert (Hs' : s' = with_video
                       (Video.touch now
                          (Video.set_status Video.FAILED
                             (Video.set_error_message (probe_message err)
                                (video s)))) s).
  { unfold s', deliver. simpl fst; simpl snd. now rewrite Hstep. }
  rewrite Hstep, Hs'. simpl.
  repeat split; try assumption.
  intros k. apply (uploading_all_along cfg (firstn k tes) (skipn k tes)).
  rewrite firstn_skipn. exact Hup.
Qed.

Lemma probe_failure_fails_the_upload_witness :
  Video.status
    (video (run sample_config
              [(1001, EditTitle 7 "Launch day, take two");
               (1002, TierCompleted 0 "720p" sample_file)]
              sample_upload)) = Video.UPLOADING
  /\ Video.status
       (video (deliver sample_config
                 (1003, UploadComplete
                          (inl (mkProbeError UnsupportedFormat "corrupt container")))
                 (run sample_config
                    [(1001, EditTitle 7 "Launch day, take two");
                     (1002, TierCompleted 0 "720p" sample_file)]
                    sample_upload))) = Video.FAILED.
Proof.
  split; [reflexivity |].
  exact (proj1 (proj2 (probe_failure_fails_the_upload sample_config
                  1%N 7 "Launch day" None 1000 empty_table
                  [(1001, EditTitle 7 "Launch day, take two");
                   (1002, TierCompleted 0 "720p" sample_file)]
                  (mkProbeError UnsupportedFormat "corrupt container")
                  1003 eq_refl))).
Defined.

(** The status steps the Coordinator takes: the four stated ones and,
    on Probe failure, 'uploading' to 'failed'. *)
Lemma coordinator_status_steps (cfg : Config) (te : DateTime * Event)
  (s : State) :
  Video.status (video (deliver cfg te s)) = Video.status (video s)
  \/ In (Video.status (video s), Video.status (video (deliver cfg te s)))
        ((Video.Status_value Video.UPLOADING, Video.Status_value Video.FAILED)
           :: stated_transitions).
Proof.
  destruct te as [now e].
  by_state s Hst Hval; destruct e;
    unfold_handlers; rewrite ?Hst; simpl; split_guards;
    rewrite ?Hval; simpl; auto 10.
Qed.

(** 'ready' is final: no signal changes the status, the stamp, the
    generation or the renditions of a video that is ready. *)
Lemma ready_is_final (cfg : Config) (te : DateTime * Event) (s : State) :
  Video.status (video s) = Video.READY ->
  Video.status (video (deliver cfg te s)) = Video.READY
  /\ Video.published_at (video (deliver cfg te s))
     = Video.published_at (video s)
  /\ generation (deliver cfg te s) = generation s
  /\ qualities (deliver cfg te s) = qualities s.
Proof.
  intros Hst. pose proof (state_of_status s Video.READY Hst) as Hof.
  destruct te as [now e]. destruct e;
    unfold_handlers; rewrite ?Hof; simpl; split_guards;
    rewrite ?Hst; simpl; tauto.
Qed.

Lemma ready_stays_final (cfg : Config) (tes : list (DateTime * Event))
  (s : State) :
  Video.status (video s) = Video.READY ->
  Video.status (video (run cfg tes s)) = Video.READY
  /\ Video.published_at (video (run cfg tes s)) = Video.published_at (video s)
  /\ generation (run cfg tes s) = generation s
  /\ qualities (run cfg tes s) = qualities s.
Proof.
  intros Hst. induction tes as [|te tes IH] using rev_ind.
  - simpl. tauto.
  - rewrite run_snoc. destruct IH as [IH1 [IH2 [IH3 IH4]]].
    destruct (ready_is_final cfg te _ IH1) as [H1 [H2 [H3 H4]]].
    repeat split; congruence.
Qed.

(** C5. Finalization is idempotent.  Once the all-required-tiers-complete
    signal has taken a processing video to 'ready', the same signal
    delivered again is accepted, not refused, gives back the very same
    state ([published_at] and [updated_at] included) and asks for no side
    effect; delivering it twice is delivering it once.  The same holds
    however late the duplicate comes: after any further signals the video
    is still ready with the stamp of the first finalization, and the
    signal, under any generation, changes nothing and writes nothing. *)
Theorem finalization_is_idempotent
  (cfg : Config) (s s1 : State) (eff1 : list Effect) (t1 t2 : DateTime) :
  Video.status (video s) = Video.PROCESSING ->
  step cfg t1 (AllRequiredComplete (generation s)) s = inr (s1, eff1) ->
  Video.status (video s1) = Video.READY
  /\ step cfg t2 (AllRequiredComplete (generation s)) s1 = inr (s1, [])
  /\ Video.published_at
       (video (deliver cfg (t2, AllRequiredComplete (generation s)) s1))
     = Video.published_at (video s1)
  /\ run cfg [(t1, AllRequiredComplete (generation s));
              (t2, AllRequiredComplete (generation s))] s
     = run cfg [(t1, AllRequiredComplete (generation s))] s
  /\ (forall (tes : list (DateTime * Event)) (gen : nat) (t : DateTime),
         Video.published_at (video (run cfg tes s1))
         = Video.published_at (video s1)
         /\ (step cfg t (AllRequiredComplete gen) (run cfg tes s1)
             = inr (run cfg tes s1, [])
             \/ step cfg t (AllRequiredComplete gen) (run cfg tes s1)
                = inr (run cfg tes s1, [LogDiscard StaleAttempt]))).
Proof.
  intros Hst Hstep.
  assert (Hready : Video.status (video s1) = Video.READY
                   /\ generation s1 = generation s).
  { simpl in Hstep. unfold on_all_required_complete, fenced in Hstep.
    rewrite (state_of_status s Video.PROCESSING Hst), Nat.eqb_refl in Hstep.
    simpl in Hstep.
    destruct (required_done cfg s); [| discriminate].
    inversion Hstep; subst; clear Hstep. split; reflexivity. }
  destruct Hready as [Hr Hg].
  assert (Hagain : step cfg t2 (AllRequiredComplete (generation s)) s1
                   = inr (s1, [])).
  { simpl. unfold on_all_required_complete, fenced.
    rewrite (state_of_status s1 Video.READY Hr), Hg, Nat.eqb_refl.
    reflexivity. }
  assert (Hd1 : deliver cfg (t1, AllRequiredComplete (generation s)) s = s1).
  { unfold deliver. simpl fst; simpl snd. now rewrite Hstep. }
  assert (Hd2 : deliver cfg (t2, AllRequiredComplete (generation s)) s1 = s1).
  { unfold deliver. simpl fst; simpl snd. now rewrite Hagain. }
  split; [exact Hr | split; [exact Hagain | split; [| split]]].
  - now rewrite Hd2.
  - change (deliver cfg (t2, AllRequiredComplete (generation s))
              (deliver cfg (t1, AllRequiredComplete (generation s)) s)
            = deliver cfg (t1, AllRequiredComplete (generation s)) s).
    now rewrite Hd1, Hd2.
  - intros tes gen t.
    destruct (ready_stays_final cfg tes s1 Hr) as [Hr' [Hp' _]].
    split; [exact Hp' |].
    simpl. unfold on_all_required_complete, fenced.
    rewrite (state_of_status _ Video.READY Hr').
    destruct (gen =? generation (run cfg tes s1))%nat; simpl; tauto.
Qed.

Lemma finalization_is_idempotent_witness :
  Video.status (video sample_transcoded) = Video.PROCESSING
  /\ Video.published_at
       (video (run sample_config
                 [(1005, AllRequiredComplete 0); (1009, AllRequiredComplete 0)]
                 sample_transcoded))
     = Some 1005
  /\ step sample_config 1009 (AllRequiredComplete 0)
       (deliver sample_config (1005, AllRequiredComplete 0) sample_transcoded)
     = inr (deliver sample_config (1005, AllRequiredComplete 0) sample_transcoded,
            []).
Proof.
  split; [reflexivity |]. split; [reflexivity |].
  exact (proj1 (proj2 (finalization_is_idempotent sample_config
                  sample_transcoded
                  (deliver sample_config (1005, AllRequiredComplete 0)
                     sample_transcoded)
                  [WriteVideo] 1005 1009 eq_refl eq_refl))).
Defined.

(** ** The status machine and the stamp *)

(** C1, as stated, fails on the Coordinator of the specification: a Probe
    failure takes an uploading video straight to 'failed' (section 4.3),
    and that pair is none of the stated transitions. *)
Lemma probe_failure_skips_processing :
  ~ (forall (cfg : Config) (te : DateTime * Event) (s : State),
        Video.status (video (deliver cfg te s)) = Video.status (video s)
        \/ In (Video.status (video s), Video.status (video (deliver cfg te s)))
              stated_transitions).
Proof.
  intros H.
  specialize (H sample_config
                (1001, UploadComplete
                         (inl (mkProbeError UnsupportedFormat "corrupt container")))
                sample_upload).
  simpl in H. destruct H as [H | H]; [discriminate |].
  unfold stated_transitions in H. simpl in H.
  repeat (destruct H as [H | H]; [discriminate |]). exact H.
Qed.

(** C1, amended.  Every signal leaves the status where it is or takes one
    of five transitions: the four stated ones and 'uploading' to 'failed'.
    A failed video changes status only on resubmission, to 'processing',
    with [processing_progress] reset to 0, [error_message] cleared and the
    next attempt generation; 'ready' is final; an uploading video changes
    status only on the upload-complete signal. *)
Theorem coordinator_follows_the_state_machine
  (cfg : Config) (te : DateTime * Event) (s : State) :
  (Video.status (video (deliver cfg te s)) = Video.status (video s)
   \/ In (Video.status (video s), Video.status (video (deliver cfg te s)))
         ((Video.Status_value Video.UPLOADING, Video.Status_value Video.FAILED)
            :: stated_transitions))
  /\ (Video.status (video s) = Video.FAILED ->
      Video.status (video (deliver cfg te s)) <> Video.status (video s) ->
      snd te = Resubmit
      /\ Video.status (video (deliver cfg te s)) = Video.PROCESSING
      /\ Video.processing_progress (video (deliver cfg te s)) = 0
      /\ Video.error_message (video (deliver cfg te s)) = ""%string
      /\ generation (deliver cfg te s) = S (generation s))
  /\ (Video.status (video s) = Video.READY ->
      Video.status (video (deliver cfg te s)) = Video.READY)
  /\ (Video.status (video s) = Video.UPLOADING ->
      Video.status (video (deliver cfg te s)) <> Video.status (video s) ->
      exists probe, snd te = UploadComplete probe).
Proof.
  split; [apply coordinator_status_steps | split; [| split]].
  - intros Hf. pose proof (state_of_status s Video.FAILED Hf) as Hof.
    destruct te as [now e]. destruct e;
      unfold_handlers; rewrite ?Hof; simpl; split_guards;
      rewrite ?Hf; simpl; intros Hne;
      try (exfalso; apply Hne; reflexivity).
    repeat split.
  - intros Hr. apply (ready_is_final cfg te s Hr).
  - intros Hu. pose proof (state_of_status s Video.UPLOADING Hu) as Hof.
    destruct te as [now e]. destruct e;
      unfold_handlers; rewrite ?Hof; simpl; split_guards;
      rewrite ?Hu; simpl; intros Hne;
      try (exfalso; apply Hne; reflexivity);
      eexists; reflexivity.
Qed.






(* ===================================================================== *)
(** * Part IV. The rest of the schema                                     *)
(* ===================================================================== *)

(** ** More on constrained tables: what an INSERT and an UPDATE return *)

Section UniqueTogetherStatements.

Context {Row Key : Type}.
Variable key : Row -> Key.
Variable Key_eqb : Key -> Key -> bool.
Variable pk : Row -> AutoId.
Variable with_pk : AutoId -> Row -> Row.
Hypothesis Key_eqb_eq : forall a b, Key_eqb a b = true <-> a = b.
Hypothesis pk_with_pk : forall n r, pk (with_pk n r) = n.
Hypothesis key_with_pk : forall n r, key (with_pk n r) = key r.

Lemma has_key_false_iff (k : Key) (r : Row) :
  has_key key Key_eqb k r = false <-> key r <> k.
Proof.
  unfold has_key. split.
  - intros H E. apply Key_eqb_eq in E. congruence.
  - intros H. destruct (Key_eqb (key r) k) eqn:E; [| reflexivity].
    apply Key_eqb_eq in E. contradiction.
Qed.

Lemma filter_none {A : Type} (f : A -> bool) (l : list A) :
  existsb f l = false -> filter f l = [].
Proof.
  induction l as [|x l IH]; simpl; intros H; [reflexivity |].
  apply orb_false_iff in H. destruct H as [Hx Hl].
  rewrite Hx. now apply IH.
Qed.

(** Two rows of a table under one key pair are one row. *)
Lemma same_key_same_row (l : list Row) (x y : Row) :
  NoDup (map key l) -> In x l -> In y l -> key x = key y -> x = y.
Proof.
  induction l as [|a l IH]; simpl; intros Hnd Hx Hy Hk; [contradiction |].
  inversion Hnd as [|? ? Ha Hl]; subst.
  destruct Hx as [-> | Hx], Hy as [-> | Hy]; auto.
  - exfalso. apply Ha. rewrite Hk. now apply in_map.
  - exfalso. apply Ha. rewrite <- Hk. now apply in_map.
Qed.

(** INSERT is refused exactly when the key pair is present. *)
Lemma insert_refused_iff (r : Row) (t : Table) :
  insert key Key_eqb with_pk r t = inl IntegrityError
  <-> In (key r) (map key (rows t)).
Proof.
  unfold insert. destruct (existsb _ (rows t)) eqn:Hex; split; intros H.
  - apply existsb_exists in Hex. destruct Hex as [y [Hy Hk]].
    unfold has_key in Hk. apply Key_eqb_eq in Hk.
    apply in_map_iff. exists y. tauto.
  - reflexivity.
  - discriminate.
  - exfalso. apply in_map_iff in H. destruct H as [y [Hk Hy]].
    assert (Ht : existsb (has_key key Key_eqb (key r)) (rows t) = true).
    { apply existsb_exists. exists y. split; [assumption |].
      unfold has_key. now apply Key_eqb_eq. }
    congruence.
Qed.

(** What a successful INSERT leaves: under the new key pair exactly the
    new row, carrying a primary key no row had; under every other pair
    what was there. *)
Lemma insert_lookup (r : Row) (t t' : Table) :
  table_ok key pk t ->
  insert key Key_eqb with_pk r t = inr t' ->
  matching key Key_eqb (key r) t' = [with_pk (next_pk t) r]
  /\ ~ In (next_pk t) (map pk (rows t))
  /\ next_pk t' = next_pk t + 1
  /\ (forall k, k <> key r ->
        matching key Key_eqb k t' = matching key Key_eqb k t).
Proof.
  intros [Hk [Hp Hlt]]. unfold insert.
  destruct (existsb _ (rows t)) eqn:Hex; [discriminate |].
  intros H. inversion H; subst; clear H. unfold matching. simpl.
  rewrite !filter_app. simpl.
  split; [| split; [| split]].
  - rewrite (filter_none _ _ Hex). simpl.
    unfold has_key at 1. rewrite key_with_pk.
    now rewrite (proj2 (Key_eqb_eq _ _) eq_refl).
  - intros Hin. apply in_map_iff in Hin. destruct Hin as [y [Hy Hin]].
    rewrite Forall_forall in Hlt. specialize (Hlt y Hin). lia.
  - reflexivity.
  - intros k Hne.
    assert (Hf : has_key key Key_eqb k (with_pk (next_pk t) r) = false).
    { apply has_key_false_iff. rewrite key_with_pk. congruence. }
    rewrite filter_app. simpl. rewrite Hf. apply app_nil_r.
Qed.

(** UPDATE of a stored row is refused exactly when another row holds the
    new key pair; writing a row back under its own pair always goes
    through. *)
Lemma update_refused_iff (p : AutoId) (r : Row) (t : Table) (x : Row) :
  In x (rows t) -> pk x = p ->
  (update key Key_eqb pk with_pk p r t = inl IntegrityError
   <-> exists y, In y (rows t) /\ pk y <> p /\ key y = key r).
Proof.
  intros Hx Hp. unfold update.
  assert (Hrow : existsb (fun x0 => pk x0 =? p) (rows t) = true).
  { apply existsb_exists. exists x. split; [assumption |]. now apply Z.eqb_eq. }
  rewrite Hrow. simpl.
  destruct (existsb
              (fun x0 => negb (pk x0 =? p) && has_key key Key_eqb (key r) x0)
              (rows t)) eqn:Hex; split; intros H.
  - apply existsb_exists in Hex. destruct Hex as [y [Hy Hc]].
    apply andb_true_iff in Hc. destruct Hc as [Hne Hk].
    apply negb_true_iff, Z.eqb_neq in Hne.
    unfold has_key in Hk. apply Key_eqb_eq in Hk.
    exists y. tauto.
  - reflexivity.
  - discriminate.
  - exfalso. destruct H as [y [Hy [Hne Hk]]].
    assert (Ht : existsb
              (fun x0 => negb (pk x0 =? p) && has_key key Key_eqb (key r) x0)
              (rows t) = true).
    { apply existsb_exists. exists y. split; [assumption |].
      apply andb_true_iff. split.
      - now apply negb_true_iff, Z.eqb_neq.
      - unfold has_key. now apply Key_eqb_eq. }
    congruence.
Qed.

Lemma update_own_key (r : Row) (t : Table) (x : Row) :
  table_ok key pk t -> In x (rows t) -> key r = key x ->
  exists t', update key Key_eqb pk with_pk (pk x) r t = inr t'.
Proof.
  intros [Hk _] Hx Hkey.
  destruct (update key Key_eqb pk with_pk (pk x) r t) as [[] | t'] eqn:Hup;
    [| now exists t'].
  exfalso.
  apply (update_refused_iff (pk x) r t x Hx eq_refl) in Hup.
  destruct Hup as [y [Hy [Hne Hky]]].
  apply Hne. f_equal.
  apply (same_key_same_row (rows t)); congruence.
Qed.

End UniqueTogetherStatements.

(** ** [Subscription], [VideoQuality] and [PlaylistVideo] as tables *)

Lemma mem_id_In (i : UUID) (l : list UUID) :
  Database.mem_id i l = true <-> In i l.
Proof.
  unfold Database.mem_id. rewrite existsb_exists. split.
  - intros [x [Hin E]]. apply N.eqb_eq in E. now subst.
  - intros H. exists i. split; [assumption | apply N.eqb_refl].
Qed.

Lemma mem_id_not_In (i : UUID) (l : list UUID) :
  Database.mem_id i l = false <-> ~ In i l.
Proof.
  rewrite <- mem_id_In. destruct (Database.mem_id i l); split;
    congruence || (intros H; exfalso; now apply H).
Qed.

Lemma mem_user_In (u : AutoId) (l : list AutoId) :
  Database.mem_user u l = true <-> In u l.
Proof.
  unfold Database.mem_user. rewrite existsb_exists. split.
  - intros [x [Hin E]]. apply Z.eqb_eq in E. now subst.
  - intros H. exists u. split; [assumption | apply Z.eqb_refl].
Qed.

Lemma mem_user_not_In (u : AutoId) (l : list AutoId) :
  Database.mem_user u l = false <-> ~ In u l.
Proof.
  rewrite <- mem_user_In. destruct (Database.mem_user u l); split;
    congruence || (intros H; exfalso; now apply H).
Qed.

Lemma Subscription_key_eqb_eq (a b : AutoId * AutoId) :
  Subscription.key_eqb a b = true <-> a = b.
Proof.
  destruct a as [s c], b as [s' c']. unfold Subscription.key_eqb. simpl.
  rewrite andb_true_iff, !Z.eqb_eq.
  split; [intros [-> ->]; reflexivity | intros H; inversion H; auto].
Qed.

Lemma VideoQuality_id_with_id (n : AutoId) (r : VideoQuality.t) :
  VideoQuality.id (VideoQuality.with_id n r) = n.
Proof. reflexivity. Qed.

Lemma VideoQuality_key_with_id (n : AutoId) (r : VideoQuality.t) :
  VideoQuality.unique_key (VideoQuality.with_id n r) = VideoQuality.unique_key r.
Proof. reflexivity. Qed.

(** What a first and a second INSERT under one pair do to table
    [subscriptions]. *)
Lemma subscription_insert_facts
  (tb tb' : Subscription.table) (s c : AutoId) (now : DateTime) :
  table_ok Subscription.unique_key Subscription.id tb ->
  Subscription.subscribe s c now tb = inr tb' ->
  Subscription.between s c tb = []
  /\ Subscription.between s c tb'
     = [Subscription.mk (next_pk tb) s c true now]
  /\ ~ In (next_pk tb) (map Subscription.id (rows tb))
  /\ table_ok Subscription.unique_key Subscription.id tb'
  /\ forall now' : DateTime,
       Subscription.subscribe s c now' tb' = inl IntegrityError.
Proof.
  intros Hok. unfold Subscription.subscribe.
  set (r := {| Subscription.id := 0; Subscription.subscriber := s;
               Subscription.channel := c;
               Subscription.notifications_enabled :=
                 Subscription.notifications_enabled_default;
               Subscription.created_at := now |}).
  intros Hins.
  destruct (insert_lookup Subscription.unique_key Subscription.key_eqb
              Subscription.id Subscription.with_id Subscription_key_eqb_eq
              (fun _ _ => eq_refl) r tb tb' Hok Hins)
    as [Hone [Hfresh [_ _]]].
  assert (Hok' : table_ok Subscription.unique_key Subscription.id tb').
  { eapply insert_ok; try exact Hins; auto using Subscription_key_eqb_eq. }
  split; [| split; [exact Hone | split; [exact Hfresh | split; [exact Hok' |]]]].
  - unfold Subscription.between, matching. apply filter_none.
    assert (Hex : existsb (has_key Subscription.unique_key
                             Subscription.key_eqb (Subscription.unique_key r))
                    (rows tb) = false).
    { unfold insert in Hins.
      destruct (existsb _ (rows tb)); [discriminate | reflexivity]. }
    exact Hex.
  - intros now'.
    apply (insert_refused_iff _ _ Subscription.with_id
             Subscription_key_eqb_eq).
    assert (Hin : In (Subscription.with_id (next_pk tb) r)
                    (matching Subscription.unique_key Subscription.key_eqb
                       (Subscription.unique_key r) tb')).
    { rewrite Hone. now left. }
    apply filter_In in Hin. destruct Hin as [Hin _].
    apply in_map_iff. exists (Subscription.with_id (next_pk tb) r).
    split; [reflexivity | exact Hin].
Qed.

Lemma subscription_held_refused
  (tb : Subscription.table) (s c : AutoId) (now : DateTime) :
  Subscription.between s c tb <> [] ->
  Subscription.subscribe s c now tb = inl IntegrityError.
Proof.
  intros Hheld. unfold Subscription.subscribe, insert.
  change (Subscription.unique_key _) with (s, c).
  destruct (existsb (has_key Subscription.unique_key Subscription.key_eqb (s, c))
              (rows tb)) eqn:Hex; [reflexivity |].
  exfalso. apply Hheld. unfold Subscription.between, matching.
  now apply filter_none.
Qed.

(** X1. A user follows a channel at most once: after any sequence of
    statements on [subscriptions] there is at most one row under the pair
    (subscriber, channel).  When [subscribe] stores a subscription, the
    pair was not there before and is there exactly once afterwards, with
    notifications enabled, the time of the call and a primary key no row
    had; subscribing again is then refused, as is any subscription under a
    pair that is stored. *)
Theorem one_subscription_per_pair
  (db : Database.t) (ss : list Subscription.statement)
  (s c : AutoId) (now : DateTime) :
  table_ok Subscription.unique_key Subscription.id (Database.subscriptions db) ->
  (List.length
     (Subscription.between s c
        (Subscription.run ss (Database.subscriptions db))) <= 1)%nat
  /\ (forall db', Database.subscribe s c now db = inr db' ->
        Subscription.between s c (Database.subscriptions db) = []
        /\ Subscription.between s c (Database.subscriptions db')
           = [Subscription.mk (next_pk (Database.subscriptions db)) s c true now]
        /\ ~ In (next_pk (Database.subscriptions db))
                (map Subscription.id (rows (Database.subscriptions db)))
        /\ table_ok Subscription.unique_key Subscription.id
             (Database.subscriptions db')
        /\ forall now' : DateTime,
             Database.subscribe s c now' db' = inl IntegrityError)
  /\ (Subscription.between s c (Database.subscriptions db) <> [] ->
      Database.subscribe s c now db = inl IntegrityError).
Proof.
  intros Hok. split; [| split].
  - unfold Subscription.between.
    apply (matching_at_most_one _ _ Subscription.id);
      auto using Subscription_key_eqb_eq.
    apply run_statements_ok; auto using Subscription_key_eqb_eq.
  - intros db' Hsub. unfold Database.subscribe in Hsub.
    destruct (Database.mem_user s (Database.user_ids db)
              && Database.mem_user c (Database.user_ids db)) eqn:Hfk;
      [| discriminate].
    destruct (Subscription.subscribe s c now (Database.subscriptions db))
      as [e | tb'] eqn:Hins; [discriminate |].
    inversion Hsub; subst; clear Hsub. simpl.
    destruct (subscription_insert_facts _ _ _ _ _ Hok Hins)
      as [H1 [H2 [H3 [H4 H5]]]].
    split; [exact H1 | split; [exact H2 | split; [exact H3 |
      split; [exact H4 |]]]].
    intros now'. unfold Database.subscribe. simpl.
    change (Database.user_ids
              {| Database.users := Database.users db;
                 Database.videos := Database.videos db;
                 Database.video_qualities := Database.video_qualities db;
                 Database.comments := Database.comments db;
                 Database.playlists := Database.playlists db;
                 Database.playlist_videos := Database.playlist_videos db;
                 Database.subscriptions := tb' |})
      with (Database.user_ids db).
    rewrite Hfk, (H5 now'). reflexivity.
  - intros Hheld. unfold Database.subscribe.
    rewrite (subscription_held_refused _ _ _ now Hheld).
    now destruct (Database.mem_user s (Database.user_ids db)
                  && Database.mem_user c (Database.user_ids db)).
Qed.

Lemma one_subscription_per_pair_witness :
  table_ok Subscription.unique_key Subscription.id
    (Database.subscriptions Database.empty)
  /\ (List.length
        (Subscription.between 7%Z 9%Z
           (Subscription.run
              [Insert (Subscription.mk 0%Z 7%Z 9%Z true 1000%Z);
               Insert (Subscription.mk 0%Z 9%Z 7%Z true 1001%Z);
               Insert (Subscription.mk 0%Z 7%Z 9%Z false 1002%Z)]
              (Database.subscriptions Database.empty))) <= 1)%nat.
Proof.
  assert (H0 : table_ok Subscription.unique_key Subscription.id
                 (Database.subscriptions Database.empty)).
  { unfold table_ok, empty_table. simpl. repeat split; constructor. }
  split; [exact H0 |].
  exact (proj1 (one_subscription_per_pair Database.empty
                  [Insert (Subscription.mk 0%Z 7%Z 9%Z true 1000%Z);
                   Insert (Subscription.mk 0%Z 9%Z 7%Z true 1001%Z);
                   Insert (Subscription.mk 0%Z 7%Z 9%Z false 1002%Z)]
                  7%Z 9%Z 1000%Z H0)).
Defined.

(** X2. Storing a rendition and looking it up.  After [add_rendition] has
    stored a rendition at time [now], its pair (video, quality_name), which
    found no row before, finds exactly the new row: the columns the caller
    gave, a primary key no row had before and [created_at = now], whatever
    the instance carried ([auto_now_add]); every other pair finds what it
    found before. *)
Theorem rendition_insert_then_lookup
  (be : Backend) (db db' : Database.t) (q : VideoQuality.t) (now : DateTime) :
  table_ok VideoQuality.unique_key VideoQuality.id
    (Database.video_qualities db) ->
  Database.add_rendition be q now db = inr db' ->
  VideoQuality.renditions (VideoQuality.video q) (VideoQuality.quality_name q)
    (Database.video_qualities db) = []
  /\ VideoQuality.renditions (VideoQuality.video q)
       (VideoQuality.quality_name q) (Database.video_qualities db')
     = [VideoQuality.with_id (next_pk (Database.video_qualities db))
          (VideoQuality.stamp_created now q)]
  /\ VideoQuality.created_at
       (VideoQuality.with_id (next_pk (Database.video_qualities db))
          (VideoQuality.stamp_created now q)) = now
  /\ ~ In (next_pk (Database.video_qualities db))
          (map VideoQuality.id (rows (Database.video_qualities db)))
  /\ (forall (v : UUID) (n : string),
         (v, n) <> (VideoQuality.video q, VideoQuality.quality_name q) ->
         VideoQuality.renditions v n (Database.video_qualities db')
         = VideoQuality.renditions v n (Database.video_qualities db)).
Proof.
  intros Hok Hadd. unfold Database.add_rendition in Hadd.
  destruct (VideoQuality.fits be q); simpl in Hadd; [| discriminate].
  destruct (Database.mem_id (VideoQuality.video q) (Database.video_ids db));
    simpl in Hadd; [| discriminate].
  destruct (insert VideoQuality.unique_key VideoQuality.key_eqb
              VideoQuality.with_id (VideoQuality.stamp_created now q)
              (Database.video_qualities db)) as [e | tb'] eqn:Hins;
    [discriminate |].
  inversion Hadd; subst; clear Hadd. simpl.
  destruct (insert_lookup VideoQuality.unique_key VideoQuality.key_eqb
              VideoQuality.id VideoQuality.with_id VideoQuality_key_eqb_eq
              VideoQuality_key_with_id _ _ _ Hok Hins)
    as [Hone [Hfresh [_ Hframe]]].
  split; [| split; [exact Hone | split; [reflexivity | split; [exact Hfresh |]]]].
  - unfold VideoQuality.renditions, matching. apply filter_none.
    unfold insert in Hins.
    change (VideoQuality.unique_key (VideoQuality.stamp_created now q))
      with (VideoQuality.video q, VideoQuality.quality_name q) in Hins.
    destruct (existsb _ (rows (Database.video_qualities db)));
      [discriminate | reflexivity].
  - intros v n Hne. apply Hframe. exact Hne.
Qed.

Lemma rendition_insert_then_lookup_witness :
  VideoQuality.renditions 1%N "480p"
    (Database.video_qualities sample_database) = []
  /\ match Database.add_rendition postgresql (sample_rendition 1%N "480p") 1010
             sample_database with
     | inr db' =>
         map VideoQuality.created_at
           (VideoQuality.renditions 1%N "480p" (Database.video_qualities db'))
         = [1010]
     | inl _ => False
     end.
Proof.
  assert (H0 : table_ok VideoQuality.unique_key VideoQuality.id
                 (Database.video_qualities sample_database)).
  { unfold table_ok. simpl. repeat split; repeat constructor; simpl;
      intuition lia. }
  split.
  - exact (proj1 (rendition_insert_then_lookup postgresql sample_database _
                    (sample_rendition 1%N "480p") 1010 H0 eq_refl)).
  - reflexivity.
Defined.

(** X3. When an UPDATE of a stored rendition is refused.  For columns that
    fit the table, the database raises [IntegrityError] exactly when the
    new [video] names no video or another row holds the new pair (video,
    quality_name); writing a row back under its own pair (new file path,
    same tier) always goes through; and an UPDATE that goes through leaves
    the row under the same primary key with the new columns, as many rows
    as before and every [unique_together] pair still held once. *)
Theorem rendition_write_refused_iff
  (be : Backend) (db : Database.t) (q x : VideoQuality.t) :
  table_ok VideoQuality.unique_key VideoQuality.id
    (Database.video_qualities db) ->
  In x (rows (Database.video_qualities db)) ->
  In (VideoQuality.video x) (Database.video_ids db) ->
  VideoQuality.fits be q = true ->
  (Database.update_rendition be (VideoQuality.id x) q db
   = inl (Refused IntegrityError)
   <-> ~ In (VideoQuality.video q) (Database.video_ids db)
       \/ exists y, In y (rows (Database.video_qualities db))
                    /\ VideoQuality.id y <> VideoQuality.id x
                    /\ VideoQuality.video y = VideoQuality.video q
                    /\ VideoQuality.quality_name y
                       = VideoQuality.quality_name q)
  /\ (VideoQuality.video q = VideoQuality.video x ->
      VideoQuality.quality_name q = VideoQuality.quality_name x ->
      exists db',
        Database.update_rendition be (VideoQuality.id x) q db = inr db')
  /\ (forall db',
        Database.update_rendition be (VideoQuality.id x) q db = inr db' ->
        In (VideoQuality.with_id (VideoQuality.id x) q)
           (rows (Database.video_qualities db'))
        /\ List.length (rows (Database.video_qualities db'))
           = List.length (rows (Database.video_qualities db))
        /\ table_ok VideoQuality.unique_key VideoQuality.id
             (Database.video_qualities db')
        /\ Database.videos db' = Database.videos db).
Proof.
  intros Hok Hx Hxv Hfits.
  assert (Hrow : existsb (fun y => VideoQuality.id y =? VideoQuality.id x)
                   (rows (Database.video_qualities db)) = true).
  { apply existsb_exists. exists x. split; [assumption |]. apply Z.eqb_refl. }
  assert (Hiff : update VideoQuality.unique_key VideoQuality.key_eqb
                   VideoQuality.id VideoQuality.with_id (VideoQuality.id x) q
                   (Database.video_qualities db) = inl IntegrityError
                 <-> exists y, In y (rows (Database.video_qualities db))
                       /\ VideoQuality.id y <> VideoQuality.id x
                       /\ VideoQuality.video y = VideoQuality.video q
                       /\ VideoQuality.quality_name y
                          = VideoQuality.quality_name q).
  { rewrite (update_refused_iff VideoQuality.unique_key VideoQuality.key_eqb
               VideoQuality.id VideoQuality.with_id VideoQuality_key_eqb_eq
               (VideoQuality.id x) q _ x Hx eq_refl).
    unfold VideoQuality.unique_key.
    split; intros [y H]; exists y.
    + destruct H as [Hin [Hne H]]. inversion H. tauto.
    + destruct H as [Hin [Hne [Hv Hq]]]. repeat split; congruence. }
  unfold Database.update_rendition. rewrite Hfits, Hrow. simpl.
  destruct (Database.mem_id (VideoQuality.video q) (Database.video_ids db))
    eqn:Hv; simpl.
  - apply mem_id_In in Hv.
    destruct (update VideoQuality.unique_key VideoQuality.key_eqb
                VideoQuality.id VideoQuality.with_id (VideoQuality.id x) q
                (Database.video_qualities db)) as [[] | tb'] eqn:Hup.
    + split; [| split].
      * split; [intros _; right; now apply Hiff | reflexivity].
      * intros Hqv Hqn. exfalso.
        destruct (update_own_key VideoQuality.unique_key VideoQuality.key_eqb
                    VideoQuality.id VideoQuality.with_id VideoQuality_key_eqb_eq
                    q _ x Hok Hx) as [t' Ht'].
        { unfold VideoQuality.unique_key. congruence. }
        congruence.
      * intros db' H. discriminate.
    + split; [| split].
      * split; [discriminate |].
        intros [H | H]; [contradiction |].
        apply Hiff in H. discriminate.
      * intros _ _. eexists. reflexivity.
      * intros db' H. inversion H; subst; clear H. simpl.
        assert (Hrows : rows tb'
                        = map (fun y => if VideoQuality.id y =? VideoQuality.id x
                                        then VideoQuality.with_id
                                               (VideoQuality.id x) q
                                        else y)
                            (rows (Database.video_qualities db))).
        { unfold update in Hup.
          destruct (existsb _ (rows (Database.video_qualities db))
                    && existsb _ (rows (Database.video_qualities db)));
            [discriminate |].
          now inversion Hup. }
        split; [| split; [| split; [| reflexivity]]].
        -- rewrite Hrows. apply in_map_iff. exists x.
           split; [now rewrite Z.eqb_refl | assumption].
        -- rewrite Hrows. apply length_map.
        -- eapply update_ok; try exact Hup;
             auto using VideoQuality_key_eqb_eq.
  - apply mem_id_not_In in Hv.
    split; [| split].
    + split; [intros _; now left | reflexivity].
    + intros Hqv Hqn. exfalso. apply Hv. now rewrite Hqv.
    + intros db' H. discriminate.
Qed.

Lemma rendition_write_refused_iff_witness :
  exists db',
    Database.update_rendition postgresql 1
      (VideoQuality.mk 0 1%N "720p" 1280 720 "3000k" "videos/720p/1b.mp4" ""
         (Some 2048) 1000)
      sample_database = inr db'.
Proof.
  assert (H0 : table_ok VideoQuality.unique_key VideoQuality.id
                 (Database.video_qualities sample_database)).
  { unfold table_ok. simpl. repeat split; repeat constructor; simpl;
      intuition lia. }
  apply (proj1 (proj2 (rendition_write_refused_iff postgresql sample_database
                  (VideoQuality.mk 0 1%N "720p" 1280 720 "3000k"
                     "videos/720p/1b.mp4" "" (Some 2048) 1000)
                  (VideoQuality.with_id 1 (sample_rendition 1%N "720p"))
                  H0 (or_introl eq_refl) (or_introl eq_refl) eq_refl)));
    reflexivity.
Defined.

(** ** The listing of a playlist *)

Lemma place_entry_perm (e : PlaylistVideo.t) (l : list PlaylistVideo.t) :
  Permutation (place_entry e l) (e :: l).
Proof.
  induction l as [|x l IH]; simpl; [reflexivity |].
  destruct (PlaylistVideo.order e <=? PlaylistVideo.order x); [reflexivity |].
  rewrite IH. apply perm_swap.
Qed.

Lemma by_order_perm (l : list PlaylistVideo.t) : Permutation (by_order l) l.
Proof.
  induction l as [|x l IH]; simpl; [reflexivity |].
  rewrite place_entry_perm. now constructor.
Qed.

Lemma place_entry_hd (a e : PlaylistVideo.t) (l : list PlaylistVideo.t) :
  HdRel (fun x y => PlaylistVideo.order x <= PlaylistVideo.order y) a l ->
  PlaylistVideo.order a <= PlaylistVideo.order e ->
  HdRel (fun x y => PlaylistVideo.order x <= PlaylistVideo.order y) a
    (place_entry e l).
Proof.
  intros Hhd Hae. destruct l as [|x l]; simpl; [now constructor |].
  destruct (PlaylistVideo.order e <=? PlaylistVideo.order x);
    constructor; [assumption | now inversion Hhd].
Qed.

Lemma place_entry_sorted (e : PlaylistVideo.t) (l : list PlaylistVideo.t) :
  Sorted (fun x y => PlaylistVideo.order x <= PlaylistVideo.order y) l ->
  Sorted (fun x y => PlaylistVideo.order x <= PlaylistVideo.order y)
    (place_entry e l).
Proof.
  induction l as [|x l IH]; simpl; intros Hs.
  - repeat constructor.
  - inversion Hs as [|? ? Hl Hhd]; subst.
    destruct (PlaylistVideo.order e <=? PlaylistVideo.order x) eqn:E.
    + apply Z.leb_le in E. constructor; [assumption | now constructor].
    + apply Z.leb_gt in E. constructor; [now apply IH |].
      apply place_entry_hd; [assumption | lia].
Qed.

Lemma by_order_sorted (l : list PlaylistVideo.t) :
  StronglySorted (fun x y => PlaylistVideo.order x <= PlaylistVideo.order y)
    (by_order l).
Proof.
  apply Sorted_StronglySorted.
  - intros x y z Hxy Hyz. lia.
  - induction l as [|x l IH]; simpl; [constructor |].
    now apply place_entry_sorted.
Qed.

(** Within one playlist the constraint leaves no video twice. *)
Lemma playlist_videos_distinct (p : UUID) (l : list PlaylistVideo.t) :
  NoDup (map PlaylistVideo.unique_key l) ->
  NoDup (map PlaylistVideo.video
           (filter (fun e => (PlaylistVideo.playlist e =? p)%N) l)).
Proof.
  induction l as [|x l IH]; simpl; intros Hnd; [constructor |].
  inversion Hnd as [|? ? Hx Hl]; subst.
  destruct (PlaylistVideo.playlist x =? p)%N eqn:E; [| now apply IH].
  simpl. constructor; [| now apply IH].
  intros Hin. apply Hx.
  apply in_map_iff in Hin. destruct Hin as [y [Hv Hy]].
  apply filter_In in Hy. destruct Hy as [Hy Hp].
  apply N.eqb_eq in E. apply N.eqb_eq in Hp.
  apply in_map_iff. exists y. split; [| assumption].
  unfold PlaylistVideo.unique_key. congruence.
Qed.

(** X4. The entries of a playlist as [playlist.playlist_videos.all()]
    lists them ([Meta.ordering = ['order']]): all entries of that playlist
    and no others, each position no greater than every later one, and no
    video twice. *)
Theorem playlist_listing_in_order (tb : PlaylistVideo.table) (p : UUID) :
  table_ok PlaylistVideo.unique_key PlaylistVideo.id tb ->
  Permutation (playlist_listing p tb)
    (filter (fun e => (PlaylistVideo.playlist e =? p)%N) (rows tb))
  /\ StronglySorted
       (fun x y => PlaylistVideo.order x <= PlaylistVideo.order y)
       (playlist_listing p tb)
  /\ NoDup (map PlaylistVideo.video (playlist_listing p tb))
  /\ (forall e, In e (playlist_listing p tb)
                <-> In e (rows tb) /\ PlaylistVideo.playlist e = p).
Proof.
  intros [Hk _]. unfold playlist_listing.
  split; [apply by_order_perm | split; [apply by_order_sorted | split]].
  - eapply Permutation_NoDup.
    + apply Permutation_map. symmetry. apply by_order_perm.
    + now apply playlist_videos_distinct.
  - intros e. split.
    + intros H. apply (Permutation_in _ (by_order_perm _)) in H.
      apply filter_In in H. now rewrite N.eqb_eq in H.
    + intros [H Hp].
      apply (Permutation_in _ (Permutation_sym (by_order_perm _))).
      apply filter_In. now rewrite N.eqb_eq.
Qed.

Lemma playlist_listing_in_order_witness :
  map PlaylistVideo.video
    (playlist_listing 5%N
       (PlaylistVideo.run
          [Insert (PlaylistVideo.mk 0 5%N 1%N 2 1000);
           Insert (PlaylistVideo.mk 0 6%N 1%N 0 1001);
           Insert (PlaylistVideo.mk 0 5%N 2%N 1 1002);
           Insert (PlaylistVideo.mk 0 5%N 3%N 1 1003)]
          empty_table))
  = [2%N; 3%N; 1%N]
  /\ NoDup [2%N; 3%N; 1%N].
Proof.
  split; [reflexivity |].
  assert (H0 : table_ok PlaylistVideo.unique_key PlaylistVideo.id
                 (PlaylistVideo.run
                    [Insert (PlaylistVideo.mk 0 5%N 1%N 2 1000);
                     Insert (PlaylistVideo.mk 0 6%N 1%N 0 1001);
                     Insert (PlaylistVideo.mk 0 5%N 2%N 1 1002);
                     Insert (PlaylistVideo.mk 0 5%N 3%N 1 1003)]
                    empty_table)).
  { apply run_statements_ok; auto using PlaylistVideo_key_eqb_eq.
    unfold table_ok, empty_table. simpl. repeat split; constructor. }
  exact (proj1 (proj2 (proj2 (playlist_listing_in_order
                  (PlaylistVideo.run
                     [Insert (PlaylistVideo.mk 0 5%N 1%N 2 1000);
                      Insert (PlaylistVideo.mk 0 6%N 1%N 0 1001);
                      Insert (PlaylistVideo.mk 0 5%N 2%N 1 1002);
                      Insert (PlaylistVideo.mk 0 5%N 3%N 1 1003)]
                     empty_table)
                  5%N H0)))).
Defined.

(** ** Table [videos]: primary key and time stamps *)

Lemma save_ids (v : Video.t) (now : DateTime) (tb : Video.table) :
  existsb (fun x => (Video.id x =? Video.id v)%N) tb = true ->
  map Video.id (Video.save v now tb) = map Video.id tb.
Proof.
  unfold Video.save. intros Hex. rewrite Hex. clear Hex.
  induction tb as [|x tb IH]; simpl; [reflexivity |].
  rewrite IH. destruct (Video.id x =? Video.id v)%N eqn:E; [| reflexivity].
  apply N.eqb_eq in E. simpl. now rewrite E.
Qed.

Lemma get_none_iff (i : UUID) (tb : Video.table) :
  Video.get i tb = None <-> ~ In i (map Video.id tb).
Proof.
  unfold Video.get. split.
  - intros H Hin. apply in_map_iff in Hin. destruct Hin as [x [Hx Hin]].
    apply (find_none _ _ H) in Hin. apply N.eqb_neq in Hin. contradiction.
  - intros H. destruct (find _ tb) as [x|] eqn:E; [| reflexivity].
    exfalso. apply find_some in E. destruct E as [Hin E].
    apply N.eqb_eq in E. apply H. apply in_map_iff. exists x. tauto.
Qed.

Lemma get_none_exists (i : UUID) (tb : Video.table) :
  Video.get i tb = None ->
  existsb (fun x => (Video.id x =? i)%N) tb = false.
Proof.
  unfold Video.get. intros H.
  destruct (existsb _ tb) eqn:E; [| reflexivity].
  apply existsb_exists in E. destruct E as [x [Hin E]].
  apply (find_none _ _ H) in Hin. congruence.
Qed.

Lemma get_save_other (v : Video.t) (now : DateTime) (tb : Video.table)
  (j : UUID) :
  j <> Video.id v -> Video.get j (Video.save v now tb) = Video.get j tb.
Proof.
  intros Hne. unfold Video.save, Video.get.
  destruct (existsb _ tb).
  - induction tb as [|x tb IH]; simpl; [reflexivity |].
    destruct (Video.id x =? Video.id v)%N eqn:E; simpl.
    + apply N.eqb_eq in E.
      assert (Hj : (Video.id v =? j)%N = false) by (apply N.eqb_neq; congruence).
      assert (Hx : (Video.id x =? j)%N = false) by (apply N.eqb_neq; congruence).
      now rewrite Hj, Hx.
    + destruct (Video.id x =? j)%N; [reflexivity | exact IH].
  - induction tb as [|x tb IH]; simpl.
    + assert (Hj : (Video.id v =? j)%N = false) by (apply N.eqb_neq; congruence).
      now rewrite Hj.
    + destruct (Video.id x =? j)%N; [reflexivity | exact IH].
Qed.

Lemma get_save_new (v : Video.t) (now : DateTime) (tb : Video.table) :
  Video.get (Video.id v) tb = None ->
  Video.get (Video.id v) (Video.save v now tb)
  = Some (Video.stamp_created now v).
Proof.
  intros Hnone. pose proof (get_none_exists _ _ Hnone) as Hex.
  unfold Video.save. rewrite Hex. unfold Video.get in *.
  induction tb as [|x tb IH]; simpl in *.
  - now rewrite N.eqb_refl.
  - apply orb_false_iff in Hex. destruct Hex as [E Hex].
    rewrite E in *. now apply IH.
Qed.

(** What [save] does to the primary keys of the table: never two rows
    under one id; a row under another id found as before; a row added
    when the id was not stored, replaced when it was. *)
Lemma save_table_facts
  (tb : Video.table) (v : Video.t) (now : DateTime) :
  NoDup (map Video.id tb) ->
  NoDup (map Video.id (Video.save v now tb))
  /\ (forall j, j <> Video.id v ->
        Video.get j (Video.save v now tb) = Video.get j tb)
  /\ (Video.get (Video.id v) tb = None ->
        Video.get (Video.id v) (Video.save v now tb)
        = Some (Video.stamp_created now v)
        /\ List.length (Video.save v now tb) = S (List.length tb))
  /\ (forall old, Video.get (Video.id v) tb = Some old ->
        Video.get (Video.id v) (Video.save v now tb)
        = Some (Video.touch now v)
        /\ List.length (Video.save v now tb) = List.length tb).
Proof.
  intros Hnd. split; [| split; [| split]].
  - destruct (existsb (fun x => (Video.id x =? Video.id v)%N) tb) eqn:Hex.
    + now rewrite (save_ids _ _ _ Hex).
    + unfold Video.save. rewrite Hex. rewrite map_app. simpl.
      apply NoDup_snoc; [assumption |].
      intros Hin. apply in_map_iff in Hin. destruct Hin as [x [Hx Hin]].
      assert (Ht : existsb (fun x0 => (Video.id x0 =? Video.id v)%N) tb = true).
      { apply existsb_exists. exists x. split; [assumption |].
        now apply N.eqb_eq. }
      congruence.
  - intros j Hne. now apply get_save_other.
  - intros Hnone. split; [now apply get_save_new |].
    unfold Video.save. rewrite (get_none_exists _ _ Hnone).
    rewrite length_app. simpl. lia.
  - intros old Hold. pose proof (get_some_exists _ _ _ Hold) as Hex.
    split; [now apply get_save |].
    unfold Video.save. rewrite Hex. apply length_map.
Qed.

(** X6. The two automatic time stamps.  After a video is first saved at
    [t0] and then written any number of times, by writes that leave [id]
    and [created_at] alone, its row carries [created_at = t0], whatever
    the instance held before, and [updated_at] is the time of the last
    write ([t0] when there was none). *)
Theorem time_stamps_follow_saves
  (tb : Video.table) (v : Video.t) (t0 : DateTime)
  (ws : list (DateTime * (Video.t -> Video.t))) :
  Video.get (Video.id v) tb = None ->
  (forall w x, In w ws ->
      Video.id (snd w x) = Video.id x
      /\ Video.created_at (snd w x) = Video.created_at x) ->
  exists v',
    Video.get (Video.id v)
      (fold_left (fun acc w => Video.write (Video.id v) (snd w) (fst w) acc)
         ws (Video.save v t0 tb)) = Some v'
    /\ Video.created_at v' = t0
    /\ Video.updated_at v' = last (map fst ws) t0.
Proof.
  intros Hnone.
  induction ws as [|w ws IH] using rev_ind; intros Hws.
  - simpl. exists (Video.stamp_created t0 v).
    split; [now apply get_save_new | split; reflexivity].
  - destruct IH as [v1 [Hget [Hc Hu]]].
    { intros w0 x Hin. apply Hws. apply in_or_app. now left. }
    rewrite fold_left_app. simpl.
    destruct (Hws w v1) as [Hid Hcr]; [apply in_or_app; right; now left |].
    exists (Video.touch (fst w) (snd w v1)).
    split; [now apply get_write | split].
    + simpl. congruence.
    + rewrite map_app. simpl. now rewrite last_last.
Qed.

Lemma time_stamps_follow_saves_witness :
  exists v',
    Video.get 1%N
      (fold_left (fun acc w => Video.write 1%N (snd w) (fst w) acc)
         [(1005, Video.set_status Video.PROCESSING);
          (1009, Video.set_processing_progress 30)]
         (Video.save sample_video 1000 [])) = Some v'
    /\ Video.created_at v' = 1000
    /\ Video.updated_at v' = 1009.
Proof.
  apply (time_stamps_follow_saves [] sample_video 1000
           [(1005, Video.set_status Video.PROCESSING);
            (1009, Video.set_processing_progress 30)] eq_refl).
  intros w x [<- | [<- | []]]; split; reflexivity.
Defined.

(** ** The choice enumerations, read back from their wire values *)

(** X7. [Video.Visibility]: the wire values are exactly 'public',
    'unlisted' and 'private', all different; the column's validation
    accepts these three strings and no other; and looking a string up
    gives the member whose value it is, or nothing when it is none of the
    three. *)
Theorem visibility_is_one_of_three_wire_values :
  map fst Video.Visibility_choices = ["public"; "unlisted"; "private"]%string
  /\ NoDup (map fst Video.Visibility_choices)
  /\ (forall x : string,
         CharField_clean Video.visibility_field x = true
         <-> In x ["public"; "unlisted"; "private"]%string)
  /\ (forall (x : string) (m : Video.Visibility),
         Visibility_of_value x = Some m <-> Video.Visibility_value m = x)
  /\ (forall x : string,
         Visibility_of_value x = None
         <-> ~ In x ["public"; "unlisted"; "private"]%string).
Proof.
  assert (Hfind : forall (x : string) (m : Video.Visibility),
             Visibility_of_value x = Some m <-> Video.Visibility_value m = x).
  { intros x m.
    cbv [Visibility_of_value Video.Visibility_members find
         Video.Visibility_value].
    split.
    - intros H.
      repeat match type of H with
             | (if ?b then _ else _) = _ =>
                 let E := fresh "E" in
                 destruct b eqn:E;
                 [apply String.eqb_eq in E; inversion H; subst; reflexivity |]
             end.
      discriminate.
    - intros <-. destruct m; reflexivity. }
  split; [reflexivity | split; [| split; [| split; [exact Hfind |]]]].
  - simpl. repeat constructor; simpl; intuition discriminate.
  - intros x. unfold CharField_clean, Video.visibility_field, in_choices. simpl.
    split.
    + intros H.
      apply andb_true_iff in H. destruct H as [H _].
      apply andb_true_iff in H. destruct H as [_ H].
      repeat (apply orb_true_iff in H; destruct H as [H | H];
              [apply String.eqb_eq in H; subst; simpl; tauto |]).
      discriminate.
    + intros [H | [H | [H | []]]]; subst; reflexivity.
  - intros x. split.
    + intros Hnone [H | [H | [H | []]]]; subst; discriminate.
    + intros Hnot.
      destruct (Visibility_of_value x) as [m|] eqn:E; [| reflexivity].
      exfalso. apply Hfind in E. apply Hnot. subst x.
      destruct m; simpl; tauto.
Qed.

(** X8. [Video.Status] read back from a string: [Status(value)] gives
    member [s] exactly for the wire value of [s], so two members never
    share a value, and it gives nothing exactly for a string that is none
    of the four. *)
Theorem status_lookup_inverts_value :
  (forall (x : string) (s : Video.Status),
      Video.Status_of_value x = Some s <-> Video.Status_value s = x)
  /\ (forall a b : Video.Status,
         Video.Status_value a = Video.Status_value b -> a = b)
  /\ (forall x : string,
         Video.Status_of_value x = None
         <-> ~ In x ["uploading"; "processing"; "ready"; "failed"]%string).
Proof.
  assert (Hfind : forall (x : string) (s : Video.Status),
             Video.Status_of_value x = Some s <-> Video.Status_value s = x).
  { intros x s.
    cbv [Video.Status_of_value Video.Status_members find Video.Status_value].
    split.
    - intros H.
      repeat match type of H with
             | (if ?b then _ else _) = _ =>
                 let E := fresh "E" in
                 destruct b eqn:E;
                 [apply String.eqb_eq in E; inversion H; subst; reflexivity |]
             end.
      discriminate.
    - intros <-. destruct s; reflexivity. }
  split; [exact Hfind | split].
  - intros a b H. apply Hfind in H.
    assert (Hb : Video.Status_of_value (Video.Status_value b) = Some b)
      by now apply Hfind.
    congruence.
  - intros x. split.
    + intros Hnone [H | [H | [H | [H | []]]]]; subst; discriminate.
    + intros Hnot.
      destruct (Video.Status_of_value x) as [s|] eqn:E; [| reflexivity].
      exfalso. apply Hfind in E. apply Hnot. subst x.
      destruct s; simpl; tauto.
Qed.

(** ** Cascading deletes *)

Lemma filter_length_le {A : Type} (f : A -> bool) (l : list A) :
  (List.length (filter f l) <= List.length l)%nat.
Proof.
  induction l as [|x l IH]; simpl; [lia |].
  destruct (f x); simpl; lia.
Qed.

(** A stricter filter that drops an element the other keeps is shorter. *)
Lemma filter_length_lt {A : Type} (f g : A -> bool) (l : list A) (x : A) :
  In x l -> f x = true -> g x = false ->
  (forall y, g y = true -> f y = true) ->
  (List.length (filter g l) < List.length (filter f l))%nat.
Proof.
  intros Hin Hf Hg Himp.
  induction l as [|a l IH]; simpl in *; [contradiction |].
  assert (Hle : (List.length (filter g l) <= List.length (filter f l))%nat).
  { clear IH Hin. induction l as [|b l IHl]; simpl; [lia |].
    destruct (g b) eqn:Eg.
    - rewrite (Himp b Eg). simpl. lia.
    - destruct (f b); simpl; lia. }
  destruct Hin as [-> | Hin].
  - rewrite Hf, Hg. simpl. lia.
  - specialize (IH Hin).
    destruct (g a) eqn:Eg.
    + rewrite (Himp a Eg). simpl. lia.
    + destruct (f a); simpl; lia.
Qed.

Lemma collect_incl (n : nat) (cs : list Comment.t) (doomed : list UUID) :
  incl doomed (Database.collect_replies n cs doomed).
Proof.
  revert doomed. induction n as [|n IH]; intros doomed; simpl.
  - apply incl_refl.
  - destruct (filter _ cs) as [|m ms]; [apply incl_refl |].
    eapply incl_tran; [| apply IH]. apply incl_appl, incl_refl.
Qed.

(** Enough rounds close the collection under replies. *)
Lemma collect_closed (n : nat) (cs : list Comment.t) (doomed : list UUID) :
  (List.length
     (filter (fun c => negb (Database.mem_id (Comment.id c) doomed)) cs)
   <= n)%nat ->
  forall c, In c cs ->
    Database.replies_to (Database.collect_replies n cs doomed) c = true ->
    Database.mem_id (Comment.id c) (Database.collect_replies n cs doomed)
    = true.
Proof.
  revert doomed. induction n as [|n IH]; intros doomed Hlen c Hc Hr; simpl in *.
  - destruct (Database.mem_id (Comment.id c) doomed) eqn:E; [reflexivity |].
    exfalso.
    assert (Hin : In c (filter
              (fun c0 => negb (Database.mem_id (Comment.id c0) doomed)) cs)).
    { apply filter_In. split; [assumption |]. now rewrite E. }
    destruct (filter _ cs); [destruct Hin | simpl in Hlen; lia].
  - destruct (filter (fun c0 => Database.replies_to doomed c0
                         && negb (Database.mem_id (Comment.id c0) doomed)) cs)
      as [|m ms] eqn:Emore.
    + destruct (Database.mem_id (Comment.id c) doomed) eqn:E; [reflexivity |].
      exfalso.
      assert (Hin : In c (filter
                (fun c0 => Database.replies_to doomed c0
                           && negb (Database.mem_id (Comment.id c0) doomed))
                cs)).
      { apply filter_In. split; [assumption |]. now rewrite Hr, E. }
      rewrite Emore in Hin. destruct Hin.
    + apply IH; try assumption.
      assert (Hm : In m (filter
                (fun c0 => Database.replies_to doomed c0
                           && negb (Database.mem_id (Comment.id c0) doomed))
                cs)) by (rewrite Emore; now left).
      apply filter_In in Hm. destruct Hm as [Hmcs Hm].
      apply andb_true_iff in Hm. destruct Hm as [_ Hm].
      assert (Hlt : (List.length
                (filter (fun c0 => negb (Database.mem_id (Comment.id c0)
                                           (doomed ++ map Comment.id (m :: ms))))
                   cs)
              < List.length
                  (filter (fun c0 => negb (Database.mem_id (Comment.id c0) doomed))
                     cs))%nat).
      { apply (filter_length_lt _ _ cs m Hmcs Hm).
        - apply negb_false_iff. apply mem_id_In.
          apply in_or_app. right. simpl. now left.
        - intros y Hy. apply negb_true_iff in Hy. apply negb_true_iff.
          apply mem_id_not_In. apply mem_id_not_In in Hy.
          intros Hin. apply Hy. apply in_or_app. now left. }
      simpl in Hlt |- *. lia.
Qed.

Lemma collect_sound (n : nat) (cs : list Comment.t) (roots doomed : list UUID) :
  (forall j, In j doomed -> hangs_below cs roots j) ->
  forall i, In i (Database.collect_replies n cs doomed) ->
            hangs_below cs roots i.
Proof.
  revert doomed. induction n as [|n IH]; intros doomed Hd i Hi; simpl in *.
  - now apply Hd.
  - destruct (filter (fun c0 => Database.replies_to doomed c0
                         && negb (Database.mem_id (Comment.id c0) doomed)) cs)
      as [|m ms] eqn:Emore; [now apply Hd |].
    apply (IH (doomed ++ map Comment.id (m :: ms))%list); [| assumption].
    intros j Hj. apply in_app_or in Hj. destruct Hj as [Hj | Hj];
      [now apply Hd |].
    apply in_map_iff in Hj. destruct Hj as [c [<- Hc]].
    rewrite <- Emore in Hc. apply filter_In in Hc. destruct Hc as [Hc Hr].
    apply andb_true_iff in Hr. destruct Hr as [Hr _].
    unfold Database.replies_to in Hr.
    destruct (Comment.parent c) as [p|] eqn:Ep; [| discriminate].
    apply mem_id_In in Hr.
    eapply hangs_reply; eauto.
Qed.

(** The collector gathers exactly what hangs below its roots. *)
Lemma collect_exact (cs : list Comment.t) (roots : list UUID) (i : UUID) :
  In i (Database.collect_replies (List.length cs) cs roots)
  <-> hangs_below cs roots i.
Proof.
  split.
  - apply collect_sound. intros j Hj. now apply hangs_root.
  - intros H. induction H as [i Hi | c p Hc Hp _ IH].
    + now apply (collect_incl _ _ _ i).
    + apply mem_id_In. apply collect_closed; try assumption.
      * apply filter_length_le.
      * unfold Database.replies_to. rewrite Hp. now apply mem_id_In.
Qed.

Lemma in_map_filter {A B : Type} (f : A -> B) (g : B -> bool) (l : list A)
  (x : B) :
  In x (map f l) -> g x = true ->
  In x (map f (filter (fun a => g (f a)) l)).
Proof.
  intros Hin Hg. apply in_map_iff in Hin. destruct Hin as [a [<- Ha]].
  apply in_map_iff. exists a. split; [reflexivity |].
  apply filter_In. tauto.
Qed.

(** A cascading delete leaves the database consistent: no key repeated and
    no key that names a deleted row. *)
Lemma delete_cascade_ok (us : list AutoId) (vs ps cs : list UUID)
  (db : Database.t) :
  Database.ok db -> Database.ok (Database.delete_cascade us vs ps cs db).
Proof.
  intros [Hupk Hvpk Hcpk Hppk Hq He Hs Hvu Hqv Hcv Hcu Hcp Hpu Hep Hev Hss Hsc].
  unfold Database.delete_cascade.
  set (DV := (vs ++ map Video.id
                      (filter (fun v => Database.mem_user (Video.user v) us)
                         (Database.videos db)))%list).
  set (DP := (ps ++ map Playlist.id
                      (filter (fun p => Database.mem_user (Playlist.user p) us)
                         (Database.playlists db)))%list).
  set (roots := (cs ++ map Comment.id
                         (filter (fun c => Database.mem_user (Comment.user c) us
                                           || Database.mem_id (Comment.video c) DV)
                            (Database.comments db)))%list).
  set (DC := Database.collect_replies (List.length (Database.comments db))
               (Database.comments db) roots).
  assert (Hkeep_user : forall x, In x (Database.user_ids db) ->
            Database.mem_user x us = false ->
            In x (map User.id
                    (filter (fun u => negb (Database.mem_user (User.id u) us))
                       (Database.users db)))).
  { intros x Hx Hm.
    apply (in_map_filter User.id (fun i => negb (Database.mem_user i us)));
      [assumption | now rewrite Hm]. }
  assert (Hkeep_video : forall i, In i (Database.video_ids db) ->
            Database.mem_id i DV = false ->
            In i (map Video.id
                    (filter (fun v => negb (Database.mem_id (Video.id v) DV))
                       (Database.videos db)))).
  { intros i Hi Hm.
    apply (in_map_filter Video.id (fun i => negb (Database.mem_id i DV)));
      [assumption | now rewrite Hm]. }
  assert (Hkeep_playlist : forall i, In i (Database.playlist_ids db) ->
            Database.mem_id i DP = false ->
            In i (map Playlist.id
                    (filter (fun p => negb (Database.mem_id (Playlist.id p) DP))
                       (Database.playlists db)))).
  { intros i Hi Hm.
    apply (in_map_filter Playlist.id (fun i => negb (Database.mem_id i DP)));
      [assumption | now rewrite Hm]. }
  assert (Hroot : forall c, In c (Database.comments db) ->
            Database.mem_user (Comment.user c) us
            || Database.mem_id (Comment.video c) DV = true ->
            Database.mem_id (Comment.id c) DC = true).
  { intros c Hc Hm. apply mem_id_In. apply (collect_incl _ _ roots).
    unfold roots. apply in_or_app. right.
    apply in_map. apply filter_In. tauto. }
  constructor; simpl;
    unfold Database.user_ids, Database.video_ids, Database.comment_ids,
           Database.playlist_ids in *; simpl.
  - now apply NoDup_map_filter.
  - now apply NoDup_map_filter.
  - now apply NoDup_map_filter.
  - now apply NoDup_map_filter.
  - now apply delete_where_ok.
  - now apply delete_where_ok.
  - now apply delete_where_ok.
  - intros v Hv. apply filter_In in Hv. destruct Hv as [Hv Hk].
    apply Hkeep_user; [now apply Hvu |].
    destruct (Database.mem_user (Video.user v) us) eqn:E; [| reflexivity].
    exfalso. apply negb_true_iff, mem_id_not_In in Hk. apply Hk.
    unfold DV. apply in_or_app. right. apply in_map. apply filter_In. tauto.
  - intros q Hq0. apply filter_In in Hq0. destruct Hq0 as [Hq0 Hk].
    apply Hkeep_video; [now apply Hqv | now apply negb_true_iff].
  - intros c Hc. apply filter_In in Hc. destruct Hc as [Hc Hk].
    apply negb_true_iff in Hk.
    apply Hkeep_video; [now apply Hcv |].
    destruct (Database.mem_id (Comment.video c) DV) eqn:E; [| reflexivity].
    rewrite (Hroot c Hc) in Hk; [discriminate |].
    rewrite E. apply orb_true_r.
  - intros c Hc. apply filter_In in Hc. destruct Hc as [Hc Hk].
    apply negb_true_iff in Hk.
    apply Hkeep_user; [now apply Hcu |].
    destruct (Database.mem_user (Comment.user c) us) eqn:E; [| reflexivity].
    rewrite (Hroot c Hc) in Hk; [discriminate |].
    now rewrite E.
  - intros c p Hc Hp. apply filter_In in Hc. destruct Hc as [Hc Hk].
    apply negb_true_iff in Hk.
    apply (in_map_filter Comment.id (fun i => negb (Database.mem_id i DC)));
      [now apply (Hcp c) |].
    apply negb_true_iff.
    destruct (Database.mem_id p DC) eqn:E; [| reflexivity].
    assert (Hin : Database.mem_id (Comment.id c) DC = true).
    { apply collect_closed; try assumption.
      - apply filter_length_le.
      - unfold Database.replies_to. now rewrite Hp. }
    congruence.
  - intros p Hp. apply filter_In in Hp. destruct Hp as [Hp Hk].
    apply Hkeep_user; [now apply Hpu |].
    destruct (Database.mem_user (Playlist.user p) us) eqn:E; [| reflexivity].
    exfalso. apply negb_true_iff, mem_id_not_In in Hk. apply Hk.
    unfold DP. apply in_or_app. right. apply in_map. apply filter_In. tauto.
  - intros e He0. apply filter_In in He0. destruct He0 as [He0 Hk].
    apply negb_true_iff, orb_false_iff in Hk.
    apply Hkeep_playlist; [now apply Hep | tauto].
  - intros e He0. apply filter_In in He0. destruct He0 as [He0 Hk].
    apply negb_true_iff, orb_false_iff in Hk.
    apply Hkeep_video; [now apply Hev | tauto].
  - intros s Hs0. apply filter_In in Hs0. destruct Hs0 as [Hs0 Hk].
    apply negb_true_iff, orb_false_iff in Hk.
    apply Hkeep_user; [now apply Hss | tauto].
  - intros s Hs0. apply filter_In in Hs0. destruct Hs0 as [Hs0 Hk].
    apply negb_true_iff, orb_false_iff in Hk.
    apply Hkeep_user; [now apply Hsc | tauto].
Qed.

(** Membership in a short explicit list, case by case. *)
Ltac each_row H :=
  simpl in H;
  repeat (destruct H as [H | H]; [subst |]); try contradiction.

Lemma sample_database_ok : Database.ok sample_database.
Proof.
  constructor;
    unfold Database.user_ids, Database.video_ids, Database.comment_ids,
           Database.playlist_ids, table_ok; simpl.
  - repeat constructor; simpl; intuition lia.
  - repeat constructor; simpl; intuition discriminate.
  - repeat constructor; simpl; intuition discriminate.
  - repeat constructor; simpl; intuition discriminate.
  - repeat split; repeat constructor; simpl; intuition lia.
  - repeat split; repeat constructor; simpl; intuition (discriminate || lia).
  - repeat split; repeat constructor; simpl; intuition lia.
  - intros x H. each_row H; simpl; tauto.
  - intros x H. each_row H; simpl; tauto.
  - intros x H. each_row H; simpl; tauto.
  - intros x H. each_row H; simpl; tauto.
  - intros x p H Hp. each_row H; simpl in Hp; try discriminate;
      inversion Hp; subst; simpl; tauto.
  - intros x H. each_row H; simpl; tauto.
  - intros x H. each_row H; simpl; tauto.
  - intros x H. each_row H; simpl; tauto.
  - intros x H. each_row H; simpl; tauto.
  - intros x H. each_row H; simpl; tauto.
Qed.

Lemma filter_all_false {A : Type} (l : list A) :
  filter (fun _ => false) l = [].
Proof. induction l as [|x l IH]; simpl; auto. Qed.

Lemma filter_all_true {A : Type} (l : list A) :
  filter (fun _ => true) l = l.
Proof. induction l as [|x l IH]; simpl; congruence. Qed.

Lemma delete_nothing {Row : Type} (t : @Table Row) :
  delete_where (fun _ => false) t = t.
Proof.
  destruct t as [rs n]. unfold delete_where. simpl.
  now rewrite filter_all_true.
Qed.

Lemma find_filter {A : Type} (f g : A -> bool) (l : list A) :
  (forall x, f x = true -> g x = true) -> find f (filter g l) = find f l.
Proof.
  intros Himp. induction l as [|x l IH]; simpl; [reflexivity |].
  destruct (f x) eqn:Ef.
  - rewrite (Himp x Ef). simpl. now rewrite Ef.
  - destruct (g x); simpl; [now rewrite Ef |]; exact IH.
Qed.

Lemma find_filter_none {A : Type} (f g : A -> bool) (l : list A) :
  (forall x, f x = true -> g x = false) -> find f (filter g l) = None.
Proof.
  intros Himp. induction l as [|x l IH]; simpl; [reflexivity |].
  destruct (g x) eqn:Eg; [| exact IH].
  simpl. destruct (f x) eqn:Ef; [| exact IH].
  rewrite (Himp x Ef) in Eg. discriminate.
Qed.

(** X9. [video.delete()].  The database stays consistent; the video is
    gone; of the renditions and of the playlist entries exactly those of
    other videos remain; no comment on the video remains; every other
    video is found as before; users, playlists and subscriptions are not
    touched. *)
Theorem video_delete_cascades (db : Database.t) (v : UUID) :
  Database.ok db ->
  Database.ok (Database.delete_video v db)
  /\ Database.find_video v (Database.delete_video v db) = None
  /\ (forall q,
         In q (rows (Database.video_qualities (Database.delete_video v db)))
         <-> In q (rows (Database.video_qualities db))
             /\ VideoQuality.video q <> v)
  /\ (forall e,
         In e (rows (Database.playlist_videos (Database.delete_video v db)))
         <-> In e (rows (Database.playlist_videos db))
             /\ PlaylistVideo.video e <> v)
  /\ (forall c,
         In c (Database.comments (Database.delete_video v db)) ->
         In c (Database.comments db) /\ Comment.video c <> v)
  /\ (forall w, w <> v ->
         Database.find_video w (Database.delete_video v db)
         = Database.find_video w db)
  /\ Database.users (Database.delete_video v db) = Database.users db
  /\ Database.playlists (Database.delete_video v db) = Database.playlists db
  /\ Database.subscriptions (Database.delete_video v db)
     = Database.subscriptions db.
Proof.
  intros Hok.
  split; [now apply delete_cascade_ok |].
  unfold Database.delete_video, Database.delete_cascade, Database.find_video,
         Video.get.
  simpl. rewrite !filter_all_false. simpl.
  split; [| split; [| split; [| split; [| split; [| split; [| split]]]]]].
  - apply find_filter_none. intros x E. now rewrite E.
  - intros q. rewrite filter_In, negb_true_iff, orb_false_r, N.eqb_neq.
    tauto.
  - intros e. rewrite filter_In, negb_true_iff, orb_false_r, N.eqb_neq.
    tauto.
  - intros c Hc. apply filter_In in Hc. destruct Hc as [Hc Hk].
    split; [assumption |]. intros Hv.
    apply negb_true_iff, mem_id_not_In in Hk. apply Hk.
    apply (collect_incl _ _ _ (Comment.id c)).
    apply in_map. apply filter_In. split; [assumption |].
    rewrite orb_false_r. now apply N.eqb_eq.
  - intros w Hne. apply find_filter. intros x E.
    apply N.eqb_eq in E. rewrite E, orb_false_r.
    apply negb_true_iff. now apply N.eqb_neq.
  - apply filter_all_true.
  - apply filter_all_true.
  - apply delete_nothing.
Qed.

Lemma video_delete_cascades_witness :
  map Comment.id (Database.comments (Database.delete_video 1%N sample_database))
  = [14%N]
  /\ forall c,
       In c (Database.comments (Database.delete_video 1%N sample_database)) ->
       In c (Database.comments sample_database) /\ Comment.video c <> 1%N.
Proof.
  split; [reflexivity |].
  exact (proj1 (proj2 (proj2 (proj2 (proj2
           (video_delete_cascades sample_database 1%N sample_database_ok)))))).
Defined.

(** X10. [comment.delete()].  The comments that go are exactly the comment
    itself and what hangs below it: its replies, their replies and so on,
    on whatever video they are.  So a top-level comment other than the
    deleted one always stays, no reply is left without the comment it
    answers (the database stays consistent), and no other table is
    touched. *)
Theorem comment_delete_takes_its_thread (db : Database.t) (c : UUID) :
  Database.ok db ->
  Database.ok (Database.delete_comment c db)
  /\ (forall x,
         In x (Database.comments (Database.delete_comment c db))
         <-> In x (Database.comments db)
             /\ ~ hangs_below (Database.comments db) [c] (Comment.id x))
  /\ Database.find_comment c (Database.delete_comment c db) = None
  /\ (forall x,
         In x (Database.comments db) -> Comment.id x <> c ->
         Comment.parent x = None ->
         In x (Database.comments (Database.delete_comment c db)))
  /\ Database.users (Database.delete_comment c db) = Database.users db
  /\ Database.videos (Database.delete_comment c db) = Database.videos db
  /\ Database.video_qualities (Database.delete_comment c db)
     = Database.video_qualities db
  /\ Database.playlists (Database.delete_comment c db) = Database.playlists db
  /\ Database.playlist_videos (Database.delete_comment c db)
     = Database.playlist_videos db
  /\ Database.subscriptions (Database.delete_comment c db)
     = Database.subscriptions db.
Proof.
  intros Hok.
  split; [now apply delete_cascade_ok |].
  assert (Hkept : forall x,
            In x (Database.comments (Database.delete_comment c db))
            <-> In x (Database.comments db)
                /\ ~ hangs_below (Database.comments db) [c] (Comment.id x)).
  { intros x.
    unfold Database.delete_comment, Database.delete_cascade. simpl.
    rewrite !filter_all_false. simpl.
    rewrite filter_In, negb_true_iff, mem_id_not_In, collect_exact. tauto. }
  split; [exact Hkept | split; [| split]].
  - unfold Database.delete_comment, Database.delete_cascade,
           Database.find_comment.
    simpl. rewrite !filter_all_false. simpl.
    apply find_filter_none. intros x E. apply N.eqb_eq in E.
    apply negb_false_iff, mem_id_In, collect_exact.
    apply hangs_root. rewrite E. now left.
  - intros x Hx Hne Hp. apply Hkept. split; [assumption |].
    intros Hh. inversion Hh as [i Hi Heq | y p Hy Hyp _ Heq].
    + destruct Hi as [Hi | []]. congruence.
    + assert (y = x).
      { apply (same_key_same_row Comment.id (Database.comments db));
          try assumption. apply (Database.comments_pk db Hok). }
      subst y. congruence.
  - unfold Database.delete_comment, Database.delete_cascade. simpl.
    rewrite !filter_all_false. simpl.
    rewrite !filter_all_true, !delete_nothing. repeat split.
Qed.

Lemma comment_delete_takes_its_thread_witness :
  map Comment.id
    (Database.comments (Database.delete_comment 12%N sample_database))
  = [11%N; 14%N]
  /\ Database.find_comment 12%N (Database.delete_comment 12%N sample_database)
     = None.
Proof.
  split; [reflexivity |].
  exact (proj1 (proj2 (proj2
           (comment_delete_takes_its_thread sample_database 12%N
              sample_database_ok)))).
Defined.

(** X11. [user.delete()].  The database stays consistent; the user is gone
    and every other user is found as before; of the videos and of the
    playlists exactly those of other users remain; no comment by the user
    remains; of the subscriptions exactly those remain in which the user
    is neither the subscriber nor the channel. *)
Theorem user_delete_cascades (db : Database.t) (u : AutoId) :
  Database.ok db ->
  Database.ok (Database.delete_user u db)
  /\ Database.find_user u (Database.delete_user u db) = None
  /\ (forall x, x <> u ->
         Database.find_user x (Database.delete_user u db)
         = Database.find_user x db)
  /\ (forall v,
         In v (Database.videos (Database.delete_user u db))
         <-> In v (Database.videos db) /\ Video.user v <> u)
  /\ (forall p,
         In p (Database.playlists (Database.delete_user u db))
         <-> In p (Database.playlists db) /\ Playlist.user p <> u)
  /\ (forall c,
         In c (Database.comments (Database.delete_user u db)) ->
         In c (Database.comments db) /\ Comment.user c <> u)
  /\ (forall s,
         In s (rows (Database.subscriptions (Database.delete_user u db)))
         <-> In s (rows (Database.subscriptions db))
             /\ Subscription.subscriber s <> u
             /\ Subscription.channel s <> u).
Proof.
  intros Hok.
  split; [now apply delete_cascade_ok |].
  unfold Database.delete_user, Database.delete_cascade, Database.find_user.
  simpl.
  split; [| split; [| split; [| split; [| split]]]].
  - apply find_filter_none. intros x E. now rewrite E.
  - intros x Hne. apply find_filter. intros y E.
    apply Z.eqb_eq in E. rewrite E, orb_false_r.
    apply negb_true_iff. now apply Z.eqb_neq.
  - intros v. rewrite filter_In, negb_true_iff, mem_id_not_In.
    split.
    + intros [Hv Hk]. split; [assumption |]. intros Hu. apply Hk.
      apply in_map. apply filter_In. split; [assumption |].
      rewrite orb_false_r. now apply Z.eqb_eq.
    + intros [Hv Hu]. split; [assumption |]. intros Hin.
      apply in_map_iff in Hin. destruct Hin as [w [Hid Hw]].
      apply filter_In in Hw. destruct Hw as [Hw Hwu].
      rewrite orb_false_r in Hwu. apply Z.eqb_eq in Hwu.
      assert (w = v).
      { apply (same_key_same_row Video.id (Database.videos db));
          try assumption. apply (Database.videos_pk db Hok). }
      subst w. contradiction.
  - intros p. rewrite filter_In, negb_true_iff, mem_id_not_In.
    split.
    + intros [Hp Hk]. split; [assumption |]. intros Hu. apply Hk.
      apply in_map. apply filter_In. split; [assumption |].
      rewrite orb_false_r. now apply Z.eqb_eq.
    + intros [Hp Hu]. split; [assumption |]. intros Hin.
      apply in_map_iff in Hin. destruct Hin as [w [Hid Hw]].
      apply filter_In in Hw. destruct Hw as [Hw Hwu].
      rewrite orb_false_r in Hwu. apply Z.eqb_eq in Hwu.
      assert (w = p).
      { apply (same_key_same_row Playlist.id (Database.playlists db));
          try assumption. apply (Database.playlists_pk db Hok). }
      subst w. contradiction.
  - intros c Hc. apply filter_In in Hc. destruct Hc as [Hc Hk].
    split; [assumption |]. intros Hu.
    apply negb_true_iff, mem_id_not_In in Hk. apply Hk.
    apply (collect_incl _ _ _ (Comment.id c)).
    apply in_map. apply filter_In. split; [assumption |].
    apply orb_true_iff. left. rewrite orb_false_r. now apply Z.eqb_eq.
  - intros s. rewrite filter_In, negb_true_iff, orb_false_iff.
    rewrite !orb_false_r, !Z.eqb_neq. tauto.
Qed.

Lemma user_delete_cascades_witness :
  map Video.id (Database.videos (Database.delete_user 7 sample_database))
  = [2%N]
  /\ map Comment.id (Database.comments (Database.delete_user 7 sample_database))
     = []
  /\ Database.find_user 7 (Database.delete_user 7 sample_database) = None.
Proof.
  split; [reflexivity | split; [reflexivity |]].
  exact (proj1 (proj2 (user_delete_cascades sample_database 7
                         sample_database_ok))).
Defined.

Lemma filter_other_playlist (p p' : UUID) (l : list PlaylistVideo.t) :
  p' <> p ->
  filter (fun e => (PlaylistVideo.playlist e =? p')%N)
    (filter (fun e => negb ((PlaylistVideo.playlist e =? p)%N || false
                            || false)) l)
  = filter (fun e => (PlaylistVideo.playlist e =? p')%N) l.
Proof.
  intros Hne. induction l as [|x l IH]; simpl; [reflexivity |].
  destruct (PlaylistVideo.playlist x =? p)%N eqn:E; simpl.
  - apply N.eqb_eq in E.
    assert (Hx : (PlaylistVideo.playlist x =? p')%N = false)
      by (apply N.eqb_neq; congruence).
    now rewrite Hx.
  - destruct (PlaylistVideo.playlist x =? p')%N; [now rewrite IH | exact IH].
Qed.

(** X12. [playlist.delete()].  The database stays consistent; the playlist
    is gone and of the entries exactly those of other playlists remain, so
    every other playlist lists what it listed before; no video, rendition,
    comment, user or subscription is touched. *)
Theorem playlist_delete_keeps_the_videos (db : Database.t) (p : UUID) :
  Database.ok db ->
  Database.ok (Database.delete_playlist p db)
  /\ Database.find_playlist p (Database.delete_playlist p db) = None
  /\ (forall e,
         In e (rows (Database.playlist_videos (Database.delete_playlist p db)))
         <-> In e (rows (Database.playlist_videos db))
             /\ PlaylistVideo.playlist e <> p)
  /\ (forall p', p' <> p ->
         playlist_listing p'
           (Database.playlist_videos (Database.delete_playlist p db))
         = playlist_listing p' (Database.playlist_videos db))
  /\ Database.videos (Database.delete_playlist p db) = Database.videos db
  /\ Database.video_qualities (Database.delete_playlist p db)
     = Database.video_qualities db
  /\ Database.comments (Database.delete_playlist p db) = Database.comments db
  /\ Database.users (Database.delete_playlist p db) = Database.users db
  /\ Database.subscriptions (Database.delete_playlist p db)
     = Database.subscriptions db.
Proof.
  intros Hok.
  split; [now apply delete_cascade_ok |].
  unfold Database.delete_playlist, Database.delete_cascade,
         Database.find_playlist, playlist_listing.
  simpl. rewrite !filter_all_false. simpl.
  split; [| split; [| split; [| split; [| split; [| split; [| split]]]]]].
  - apply find_filter_none. intros x E. now rewrite E.
  - intros e. rewrite filter_In, negb_true_iff, !orb_false_r, N.eqb_neq.
    tauto.
  - intros p' Hne. now rewrite filter_other_playlist.
  - apply filter_all_true.
  - apply delete_nothing.
  - assert (Hnone : forall n cs, Database.collect_replies n cs [] = []).
    { intros n cs. induction n as [|n IH]; [reflexivity |].
      cbn [Database.collect_replies].
      assert (Hf : filter (fun c : Comment.t =>
                     Database.replies_to [] c
                     && negb (Database.mem_id (Comment.id c) [])) cs = []).
      { apply filter_none. apply not_true_is_false. intros H.
        apply existsb_exists in H. destruct H as [x [_ Hx]].
        unfold Database.replies_to in Hx.
        destruct (Comment.parent x); discriminate. }
      now rewrite Hf. }
    rewrite Hnone. simpl. apply filter_all_true.
  - apply filter_all_true.
  - apply delete_nothing.
Qed.

Lemma playlist_delete_keeps_the_videos_witness :
  rows (Database.playlist_videos (Database.delete_playlist 5%N sample_database))
  = []
  /\ Database.videos (Database.delete_playlist 5%N sample_database)
     = Database.videos sample_database.
Proof.
  split; [reflexivity |].
  exact (proj1 (proj2 (proj2 (proj2 (proj2
           (playlist_delete_keeps_the_videos sample_database 5%N
              sample_database_ok)))))).
Defined.

(** ** Inserts and the keys they must respect *)

Lemma find_snoc_new {A : Type} (f : A -> bool) (l : list A) (x : A) :
  existsb f l = false -> f x = true -> find f (l ++ [x]) = Some x.
Proof.
  intros Hex Hx. induction l as [|a l IH]; simpl in *.
  - now rewrite Hx.
  - apply orb_false_iff in Hex. destruct Hex as [Ha Hl].
    rewrite Ha. now apply IH.
Qed.

(** X13. Storing a comment.  The database refuses it with
    [IntegrityError] exactly when its video or its author does not exist,
    when it answers a comment other than itself that does not exist, or
    when its id is in use; otherwise the comment is added after the others
    with both time stamps set to the time of the call, whatever the
    instance carried, is found under its id, leaves every other table
    alone and the database stays consistent. *)
Theorem comment_insert_respects_keys
  (db : Database.t) (c : Comment.t) (now : DateTime) :
  Database.ok db ->
  (Database.add_comment c now db = inl IntegrityError
   <-> ~ In (Comment.video c) (Database.video_ids db)
       \/ ~ In (Comment.user c) (Database.user_ids db)
       \/ (exists p, Comment.parent c = Some p
                     /\ p <> Comment.id c
                     /\ ~ In p (Database.comment_ids db))
       \/ In (Comment.id c) (Database.comment_ids db))
  /\ (forall db', Database.add_comment c now db = inr db' ->
        Database.ok db'
        /\ Database.comments db'
           = (Database.comments db ++ [Comment.stamp_created now c])%list
        /\ Database.find_comment (Comment.id c) db'
           = Some (Comment.stamp_created now c)
        /\ Comment.created_at (Comment.stamp_created now c) = now
        /\ Comment.updated_at (Comment.stamp_created now c) = now
        /\ Database.videos db' = Database.videos db
        /\ Database.users db' = Database.users db).
Proof.
  intros Hok. unfold Database.add_comment.
  set (b1 := Database.mem_id (Comment.video c) (Database.video_ids db)).
  set (b2 := Database.mem_user (Comment.user c) (Database.user_ids db)).
  set (b3 := match Comment.parent c with
             | Some p => Database.mem_id p (Database.comment_ids db)
                         || (p =? Comment.id c)%N
             | None => true
             end).
  set (b4 := Database.mem_id (Comment.id c) (Database.comment_ids db)).
  assert (H1 : b1 = false <-> ~ In (Comment.video c) (Database.video_ids db))
    by apply mem_id_not_In.
  assert (H2 : b2 = false <-> ~ In (Comment.user c) (Database.user_ids db))
    by apply mem_user_not_In.
  assert (H3 : b3 = false
               <-> exists p, Comment.parent c = Some p
                             /\ p <> Comment.id c
                             /\ ~ In p (Database.comment_ids db)).
  { unfold b3. destruct (Comment.parent c) as [p|]; split.
    - intros H. apply orb_false_iff in H. destruct H as [Hm He].
      exists p. split; [reflexivity | split].
      + now apply N.eqb_neq.
      + now apply mem_id_not_In.
    - intros [p' [Hp' [Hne H]]]. inversion Hp'; subst.
      apply orb_false_iff. split.
      + now apply mem_id_not_In.
      + now apply N.eqb_neq.
    - discriminate.
    - intros [p' [Hp' _]]. discriminate. }
  assert (H4 : b4 = true <-> In (Comment.id c) (Database.comment_ids db))
    by apply mem_id_In.
  split.
  - rewrite <- H1, <- H2, <- H3, <- H4.
    destruct b1, b2, b3, b4; simpl; intuition discriminate.
  - intros db' Hdb'.
    destruct (b1 && b2 && b3 && negb b4) eqn:E; [| discriminate].
    inversion Hdb'; subst; clear Hdb'. simpl.
    repeat (apply andb_true_iff in E; destruct E as [E ?]).
    assert (Hv : In (Comment.video c) (Database.video_ids db))
      by now apply mem_id_In.
    assert (Hu : In (Comment.user c) (Database.user_ids db))
      by now apply mem_user_In.
    assert (Hfresh : ~ In (Comment.id c) (Database.comment_ids db)).
    { apply mem_id_not_In. now apply negb_true_iff. }
    assert (Hpar : forall p, Comment.parent c = Some p ->
                             In p (Database.comment_ids db) \/ p = Comment.id c).
    { intros p Hp. unfold b3 in *. rewrite Hp in *.
      match goal with
      | Hb : (_ || _) = true |- _ =>
          apply orb_true_iff in Hb; destruct Hb as [Hb | Hb]
      end.
      - left. now apply mem_id_In.
      - right. now apply N.eqb_eq. }
    destruct Hok as
      [Hupk Hvpk Hcpk Hppk Hq He Hs Hvu Hqv Hcv Hcu Hcp Hpu Hep Hev Hss Hsc].
    split; [| split; [reflexivity | split;
      [| split; [reflexivity | split; [reflexivity | split; reflexivity]]]]].
    + constructor; simpl;
        unfold Database.user_ids, Database.video_ids, Database.comment_ids,
               Database.playlist_ids in *; simpl; try assumption.
      * rewrite map_app. simpl. now apply NoDup_snoc.
      * intros x Hx. apply in_app_or in Hx.
        destruct Hx as [Hx | [<- | []]]; auto.
      * intros x Hx. apply in_app_or in Hx.
        destruct Hx as [Hx | [<- | []]]; auto.
      * intros x q Hx Hq0. rewrite map_app. apply in_or_app.
        apply in_app_or in Hx. destruct Hx as [Hx | [<- | []]].
        -- left. now apply (Hcp x).
        -- simpl in Hq0. destruct (Hpar q Hq0) as [Hin | ->].
           ++ now left.
           ++ right. now left.
    + unfold Database.find_comment. simpl. apply find_snoc_new;
        [| apply N.eqb_refl].
      apply not_true_is_false. intros Hex.
      apply existsb_exists in Hex. destruct Hex as [y [Hy Ey]].
      apply N.eqb_eq in Ey. apply Hfresh.
      unfold Database.comment_ids. apply in_map_iff. exists y. tauto.
Qed.

Lemma comment_insert_respects_keys_witness :
  Database.add_comment
    (Comment.mk 15%N 2%N 7 (Some 99%N) "to nobody" 1010 1010 false) 1011
    sample_database = inl IntegrityError
  /\ match Database.add_comment
             (Comment.mk 15%N 2%N 7 (Some 15%N) "to myself" 5 5 false) 1011
             sample_database with
     | inr db' =>
         option_map Comment.created_at (Database.find_comment 15%N db')
         = Some 1011
     | inl _ => False
     end.
Proof.
  split; [| reflexivity].
  apply (proj1 (comment_insert_respects_keys sample_database
                  (Comment.mk 15%N 2%N 7 (Some 99%N) "to nobody" 1010 1010 false)
                  1011 sample_database_ok)).
  right. right. left. exists 99%N. split; [reflexivity |].
  simpl. intuition discriminate.
Defined.

Lemma rendition_pair_taken (tb : VideoQuality.table) (q : VideoQuality.t) :
  In (VideoQuality.unique_key q) (map VideoQuality.unique_key (rows tb))
  <-> exists x, In x (rows tb)
                /\ VideoQuality.video x = VideoQuality.video q
                /\ VideoQuality.quality_name x = VideoQuality.quality_name q.
Proof.
  rewrite in_map_iff. unfold VideoQuality.unique_key.
  split; intros [x H]; exists x.
  - destruct H as [H Hin]. inversion H. tauto.
  - destruct H as [Hin [Hv Hq]]. split; [congruence | assumption].
Qed.

(** X14. Storing a rendition.  The database refuses a row that does not
    fit its columns with [DataError]; one that fits it refuses with
    [IntegrityError] exactly when its video does not exist or a rendition
    of that video at that tier is stored already; otherwise one row is
    added, the columns of the instance under the next primary key with
    [created_at] set to the time of the call, no video is touched and the
    database stays consistent. *)
Theorem rendition_insert_respects_keys
  (be : Backend) (db : Database.t) (q : VideoQuality.t) (now : DateTime) :
  Database.ok db ->
  (VideoQuality.fits be q = false ->
   Database.add_rendition be q now db = inl DataError)
  /\ (VideoQuality.fits be q = true ->
      (Database.add_rendition be q now db = inl (Refused IntegrityError)
       <-> ~ In (VideoQuality.video q) (Database.video_ids db)
           \/ exists x, In x (rows (Database.video_qualities db))
                        /\ VideoQuality.video x = VideoQuality.video q
                        /\ VideoQuality.quality_name x
                           = VideoQuality.quality_name q))
  /\ (forall db', Database.add_rendition be q now db = inr db' ->
        Database.ok db'
        /\ rows (Database.video_qualities db')
           = (rows (Database.video_qualities db)
              ++ [VideoQuality.with_id (next_pk (Database.video_qualities db))
                    (VideoQuality.stamp_created now q)])%list
        /\ Database.videos db' = Database.videos db).
Proof.
  intros Hok. unfold Database.add_rendition.
  destruct (VideoQuality.fits be q); simpl;
    [| split; [reflexivity | split; [discriminate | intros db' H; discriminate]]].
  split; [discriminate |].
  destruct (Database.mem_id (VideoQuality.video q) (Database.video_ids db))
    eqn:Ev; simpl.
  - apply mem_id_In in Ev.
    destruct (insert VideoQuality.unique_key VideoQuality.key_eqb
                VideoQuality.with_id (VideoQuality.stamp_created now q)
                (Database.video_qualities db))
      as [[] | tb'] eqn:Hins.
    + split; [| intros db' H; discriminate].
      intros _. split; [intros _ | reflexivity].
      right. apply rendition_pair_taken.
      now apply (insert_refused_iff _ _ VideoQuality.with_id
                   VideoQuality_key_eqb_eq) in Hins.
    + split.
      * intros _. split; [discriminate |].
        intros [H | H]; [contradiction |].
        apply rendition_pair_taken in H.
        change (VideoQuality.unique_key q)
          with (VideoQuality.unique_key (VideoQuality.stamp_created now q)) in H.
        apply (insert_refused_iff _ _ VideoQuality.with_id
                 VideoQuality_key_eqb_eq) in H.
        congruence.
      * intros db' H. inversion H; subst; clear H. simpl.
        assert (Hrows : rows tb'
                        = (rows (Database.video_qualities db)
                           ++ [VideoQuality.with_id
                                 (next_pk (Database.video_qualities db))
                                 (VideoQuality.stamp_created now q)])%list).
        { unfold insert in Hins.
          destruct (existsb _ (rows (Database.video_qualities db)));
            [discriminate |].
          now inversion Hins. }
        split; [| split; [exact Hrows | reflexivity]].
        destruct Hok as
          [Hupk Hvpk Hcpk Hppk Hq He Hs Hvu Hqv Hcv Hcu Hcp Hpu Hep Hev Hss Hsc].
        constructor; simpl; try assumption.
        -- eapply insert_ok; try exact Hins;
             auto using VideoQuality_key_eqb_eq.
        -- rewrite Hrows. intros x Hx. apply in_app_or in Hx.
           destruct Hx as [Hx | [<- | []]]; [now apply Hqv | exact Ev].
  - apply mem_id_not_In in Ev.
    split; [| intros db' H; discriminate].
    intros _. split; [intros _; now left | reflexivity].
Qed.

Lemma rendition_insert_respects_keys_witness :
  Database.add_rendition postgresql (sample_rendition 3%N "720p") 1010
    sample_database
  = inl (Refused IntegrityError).
Proof.
  apply (proj2 (proj1 (proj2 (rendition_insert_respects_keys postgresql
                  sample_database (sample_rendition 3%N "720p") 1010
                  sample_database_ok)) eq_refl)).
  left. simpl. intuition discriminate.
Defined.

Lemma subscription_pair_taken (tb : Subscription.table) (s c : AutoId)
  (r : Subscription.t) :
  Subscription.subscriber r = s -> Subscription.channel r = c ->
  (In (Subscription.unique_key r) (map Subscription.unique_key (rows tb))
   <-> exists x, In x (rows tb)
                 /\ Subscription.subscriber x = s
                 /\ Subscription.channel x = c).
Proof.
  intros Hs Hc. rewrite in_map_iff. unfold Subscription.unique_key.
  split; intros [x H]; exists x.
  - destruct H as [H Hin]. inversion H. repeat split; congruence.
  - destruct H as [Hin [Hv Hq]]. split; [congruence | assumption].
Qed.

(** X15. Following a channel.  The database refuses the subscription with
    [IntegrityError] exactly when the subscriber or the channel is not a
    user or the subscriber follows the channel already; nothing else is
    checked, so a user who follows nobody yet may follow their own
    channel.  A subscription that is stored keeps the database
    consistent. *)
Theorem subscribe_respects_keys
  (db : Database.t) (s c : AutoId) (now : DateTime) :
  Database.ok db ->
  (Database.subscribe s c now db = inl IntegrityError
   <-> ~ In s (Database.user_ids db)
       \/ ~ In c (Database.user_ids db)
       \/ exists x, In x (rows (Database.subscriptions db))
                    /\ Subscription.subscriber x = s
                    /\ Subscription.channel x = c)
  /\ (forall db', Database.subscribe s c now db = inr db' ->
        Database.ok db'
        /\ Subscription.between s c (Database.subscriptions db')
           = [Subscription.mk (next_pk (Database.subscriptions db)) s c true now])
  /\ (In s (Database.user_ids db) ->
      (forall x, In x (rows (Database.subscriptions db)) ->
                 Subscription.subscriber x <> s) ->
      exists db', Database.subscribe s s now db = inr db').
Proof.
  intros Hok.
  assert (Hiff : forall c0,
    Database.subscribe s c0 now db = inl IntegrityError
    <-> ~ In s (Database.user_ids db)
        \/ ~ In c0 (Database.user_ids db)
        \/ exists x, In x (rows (Database.subscriptions db))
                     /\ Subscription.subscriber x = s
                     /\ Subscription.channel x = c0).
  { intros c0. unfold Database.subscribe, Subscription.subscribe.
    destruct (Database.mem_user s (Database.user_ids db)) eqn:Es;
      [apply mem_user_In in Es
      | apply mem_user_not_In in Es; simpl;
        split; [intros _; tauto | reflexivity]].
    destruct (Database.mem_user c0 (Database.user_ids db)) eqn:Ec;
      [apply mem_user_In in Ec
      | apply mem_user_not_In in Ec; simpl;
        split; [intros _; tauto | reflexivity]].
    simpl.
    match goal with
    | |- context [insert ?k ?e ?w ?r ?t] =>
        destruct (insert k e w r t) as [[] | tb'] eqn:Hins
    end.
    - split; [intros _ | reflexivity].
      right. right.
      apply (insert_refused_iff _ _ Subscription.with_id
               Subscription_key_eqb_eq) in Hins.
      now apply (subscription_pair_taken _ s c0) in Hins.
    - split; [discriminate |].
      intros [H | [H | H]]; try contradiction.
      apply (subscription_pair_taken _ s c0
               {| Subscription.id := 0; Subscription.subscriber := s;
                  Subscription.channel := c0;
                  Subscription.notifications_enabled :=
                    Subscription.notifications_enabled_default;
                  Subscription.created_at := now |} eq_refl eq_refl) in H.
      apply (insert_refused_iff _ _ Subscription.with_id
               Subscription_key_eqb_eq) in H.
      congruence. }
  split; [apply Hiff | split].
  - intros db'. unfold Database.subscribe, Subscription.subscribe.
    destruct (Database.mem_user s (Database.user_ids db)) eqn:Es;
      destruct (Database.mem_user c (Database.user_ids db)) eqn:Ec; simpl;
      try discriminate.
    apply mem_user_In in Es. apply mem_user_In in Ec.
    match goal with
    | |- context [insert ?k ?e ?w ?r ?t] =>
        destruct (insert k e w r t) as [[] | tb'] eqn:Hins
    end; [discriminate |].
    intros H. inversion H; subst; clear H. simpl.
    destruct (insert_lookup Subscription.unique_key Subscription.key_eqb
                Subscription.id Subscription.with_id Subscription_key_eqb_eq
                (fun _ _ => eq_refl) _ _ tb'
                (Database.subscriptions_ok db Hok) Hins) as [Hone _].
    split; [| exact Hone].
    destruct Hok as
      [Hupk Hvpk Hcpk Hppk Hq He Hs Hvu Hqv Hcv Hcu Hcp Hpu Hep Hev Hss Hsc].
    constructor; simpl; try assumption.
    + eapply insert_ok; try exact Hins; auto using Subscription_key_eqb_eq.
    + unfold insert in Hins.
      destruct (existsb _ (rows (Database.subscriptions db)));
        [discriminate |].
      inversion Hins; subst; clear Hins. simpl.
      intros x Hx. apply in_app_or in Hx.
      destruct Hx as [Hx | [<- | []]]; [now apply Hss | exact Es].
    + unfold insert in Hins.
      destruct (existsb _ (rows (Database.subscriptions db)));
        [discriminate |].
      inversion Hins; subst; clear Hins. simpl.
      intros x Hx. apply in_app_or in Hx.
      destruct Hx as [Hx | [<- | []]]; [now apply Hsc | exact Ec].
  - intros Hs Hnone.
    destruct (Database.subscribe s s now db) as [[] | db'] eqn:E;
      [| now exists db'].
    exfalso. apply Hiff in E.
    destruct E as [E | [E | [x [Hx [Hxs _]]]]]; try contradiction.
    now apply (Hnone x).
Qed.

Lemma subscribe_respects_keys_witness :
  Database.subscribe 9 7 1010 sample_database = inl IntegrityError
  /\ exists db', Database.subscribe 7 7 1010 sample_database = inr db'.
Proof.
  split.
  - apply (proj1 (subscribe_respects_keys sample_database 9 7 1010
                    sample_database_ok)).
    right. right. exists (Subscription.mk 1 9 7 true 1009).
    repeat split. simpl. now left.
  - apply (proj2 (proj2 (subscribe_respects_keys sample_database 7 7 1010
                           sample_database_ok))).
    + simpl. now left.
    + intros x Hx. each_row Hx. simpl. lia.
Defined.




(** ** The [__str__] methods *)

Lemma find_user_some (db : Database.t) (i : AutoId) :
  In i (Database.user_ids db) ->
  exists u, Database.find_user i db = Some u
            /\ In u (Database.users db) /\ User.id u = i.
Proof.
  intros Hin. unfold Database.find_user.
  destruct (find (fun x => User.id x =? i) (Database.users db)) as [u|] eqn:E.
  - apply find_some in E. destruct E as [Hu E]. apply Z.eqb_eq in E.
    now exists u.
  - exfalso. apply in_map_iff in Hin. destruct Hin as [x [Hx Hin]].
    apply (find_none _ _ E) in Hin. apply Z.eqb_neq in Hin. contradiction.
Qed.

Lemma find_video_some (db : Database.t) (i : UUID) :
  In i (Database.video_ids db) ->
  exists v, Database.find_video i db = Some v
            /\ In v (Database.videos db) /\ Video.id v = i.
Proof.
  intros Hin. unfold Database.find_video, Video.get.
  destruct (find (fun x => (Video.id x =? i)%N) (Database.videos db))
    as [v|] eqn:E.
  - apply find_some in E. destruct E as [Hv E]. apply N.eqb_eq in E.
    now exists v.
  - exfalso. apply in_map_iff in Hin. destruct Hin as [x [Hx Hin]].
    apply (find_none _ _ E) in Hin. apply N.eqb_neq in Hin. contradiction.
Qed.

Lemma find_playlist_some (db : Database.t) (i : UUID) :
  In i (Database.playlist_ids db) ->
  exists p, Database.find_playlist i db = Some p
            /\ In p (Database.playlists db) /\ Playlist.id p = i.
Proof.
  intros Hin. unfold Database.find_playlist.
  destruct (find (fun x => (Playlist.id x =? i)%N) (Database.playlists db))
    as [p|] eqn:E.
  - apply find_some in E. destruct E as [Hp E]. apply N.eqb_eq in E.
    now exists p.
  - exfalso. apply in_map_iff in Hin. destruct Hin as [x [Hx Hin]].
    apply (find_none _ _ E) in Hin. apply N.eqb_neq in Hin. contradiction.
Qed.

(** X17. In a consistent database no [__str__] fails on a missing related
    row: for every stored video, rendition, comment, playlist, playlist
    entry and subscription the string is defined, and it is built from the
    rows its keys name: "title by username", "title - quality",
    "Comment by username on title", "title in playlist title",
    "subscriber -> channel". *)
Theorem str_is_defined (db : Database.t) :
  Database.ok db ->
  (forall v, In v (Database.videos db) ->
     exists u, In u (Database.users db) /\ User.id u = Video.user v
       /\ Database.video_str db v
          = Some (Video.title v ++ " by " ++ User.username u)%string)
  /\ (forall q, In q (rows (Database.video_qualities db)) ->
        exists v, In v (Database.videos db)
          /\ Video.id v = VideoQuality.video q
          /\ Database.video_quality_str db q
             = Some (Video.title v ++ " - "
                     ++ VideoQuality.quality_name q)%string)
  /\ (forall c, In c (Database.comments db) ->
        exists u v, In u (Database.users db) /\ User.id u = Comment.user c
          /\ In v (Database.videos db) /\ Video.id v = Comment.video c
          /\ Database.comment_str db c
             = Some ("Comment by " ++ User.username u ++ " on "
                     ++ Video.title v)%string)
  /\ (forall p, In p (Database.playlists db) ->
        exists u, In u (Database.users db) /\ User.id u = Playlist.user p
          /\ Database.playlist_str db p
             = Some (Playlist.title p ++ " by " ++ User.username u)%string)
  /\ (forall e, In e (rows (Database.playlist_videos db)) ->
        exists v p, In v (Database.videos db)
          /\ Video.id v = PlaylistVideo.video e
          /\ In p (Database.playlists db)
          /\ Playlist.id p = PlaylistVideo.playlist e
          /\ Database.playlist_video_str db e
             = Some (Video.title v ++ " in " ++ Playlist.title p)%string)
  /\ (forall s, In s (rows (Database.subscriptions db)) ->
        exists a b, In a (Database.users db)
          /\ User.id a = Subscription.subscriber s
          /\ In b (Database.users db)
          /\ User.id b = Subscription.channel s
          /\ Database.subscription_str db s
             = Some (User.username a ++ " -> " ++ User.username b)%string).
Proof.
  intros [Hupk Hvpk Hcpk Hppk Hq He Hs Hvu Hqv Hcv Hcu Hcp Hpu Hep Hev Hss Hsc].
  split; [| split; [| split; [| split; [| split]]]].
  - intros v Hv.
    destruct (find_user_some db _ (Hvu v Hv)) as [u [Hf [Hu Hid]]].
    exists u. unfold Database.video_str. rewrite Hf. tauto.
  - intros q Hq0.
    destruct (find_video_some db _ (Hqv q Hq0)) as [v [Hf [Hv Hid]]].
    exists v. unfold Database.video_quality_str. rewrite Hf. tauto.
  - intros c Hc.
    destruct (find_user_some db _ (Hcu c Hc)) as [u [Hfu [Hu Hidu]]].
    destruct (find_video_some db _ (Hcv c Hc)) as [v [Hfv [Hv Hidv]]].
    exists u, v. unfold Database.comment_str. rewrite Hfu, Hfv. tauto.
  - intros p Hp.
    destruct (find_user_some db _ (Hpu p Hp)) as [u [Hf [Hu Hid]]].
    exists u. unfold Database.playlist_str. rewrite Hf. tauto.
  - intros e He0.
    destruct (find_video_some db _ (Hev e He0)) as [v [Hfv [Hv Hidv]]].
    destruct (find_playlist_some db _ (Hep e He0)) as [p [Hfp [Hp Hidp]]].
    exists v, p. unfold Database.playlist_video_str. rewrite Hfv, Hfp. tauto.
  - intros s Hs0.
    destruct (find_user_some db _ (Hss s Hs0)) as [a [Hfa [Ha Hida]]].
    destruct (find_user_some db _ (Hsc s Hs0)) as [b [Hfb [Hb Hidb]]].
    exists a, b. unfold Database.subscription_str. rewrite Hfa, Hfb. tauto.
Qed.

Lemma str_is_defined_witness :
  map (Database.comment_str
         (Database.delete_comment 12%N sample_database))
      (Database.comments (Database.delete_comment 12%N sample_database))
  = [Some "Comment by bob on Launch day"%string;
     Some "Comment by ada on Unboxing"%string]
  /\ forall v,
       In v (Database.videos (Database.delete_comment 12%N sample_database)) ->
       exists u,
         In u (Database.users (Database.delete_comment 12%N sample_database))
         /\ User.id u = Video.user v
         /\ Database.video_str (Database.delete_comment 12%N sample_database) v
            = Some (Video.title v ++ " by " ++ User.username u)%string.
Proof.
  split; [reflexivity |].
  exact (proj1 (str_is_defined
                  (Database.delete_comment 12%N sample_database)
                  (delete_cascade_ok [] [] [] [12%N] sample_database
                     sample_database_ok))).
Defined.

(* ===================================================================== *)
(** * Part V. Validating and saving a video                               *)
(* ===================================================================== *)

(** ** What [save()] leaves in table [videos] *)

Lemma in_save (v x : Video.t) (now : DateTime) (tb : Video.table) :
  In x (Video.save v now tb) ->
  In x tb \/ x = Video.touch now v \/ x = Video.stamp_created now v.
Proof.
  unfold Video.save. destruct (existsb _ tb).
  - intros H. apply in_map_iff in H. destruct H as [y [Hy Hin]].
    destruct (Video.id y =? Video.id v)%N; subst; auto.
  - intros H. apply in_app_or in H. destruct H as [H | [<- | []]]; auto.
Qed.

Lemma save_ids_incl (v : Video.t) (now : DateTime) (tb : Video.table)
  (i : UUID) :
  In i (map Video.id tb) -> In i (map Video.id (Video.save v now tb)).
Proof.
  destruct (existsb (fun x => (Video.id x =? Video.id v)%N) tb) eqn:Hex.
  - now rewrite (save_ids _ _ _ Hex).
  - unfold Video.save. rewrite Hex, map_app. intros H.
    apply in_or_app. now left.
Qed.

Lemma get_some_in (i : UUID) (tb : Video.table) (v : Video.t) :
  Video.get i tb = Some v -> In v tb.
Proof.
  unfold Video.get. intros H. now apply find_some in H.
Qed.

Lemma sample_users_ok : Database.ok sample_users.
Proof.
  constructor;
    unfold Database.user_ids, Database.video_ids, Database.comment_ids,
           Database.playlist_ids, table_ok; simpl.
  - repeat constructor; simpl; intuition lia.
  - repeat constructor; simpl; intuition discriminate.
  - repeat constructor; simpl; intuition discriminate.
  - repeat constructor; simpl; intuition discriminate.
  - repeat split; repeat constructor; simpl; intuition lia.
  - repeat split; repeat constructor; simpl; intuition (discriminate || lia).
  - repeat split; repeat constructor; simpl; intuition lia.
  - intros x H. each_row H; simpl; tauto.
  - intros x H. each_row H; simpl; tauto.
  - intros x H. each_row H; simpl; tauto.
  - intros x H. each_row H; simpl; tauto.
  - intros x p H Hp. each_row H; simpl in Hp; try discriminate;
      inversion Hp; subst; simpl; tauto.
  - intros x H. each_row H; simpl; tauto.
  - intros x H. each_row H; simpl; tauto.
  - intros x H. each_row H; simpl; tauto.
  - intros x H. each_row H; simpl; tauto.
  - intros x H. each_row H; simpl; tauto.
Qed.

Lemma sample_processing_ok : Database.ok sample_processing.
Proof.
  constructor;
    unfold Database.user_ids, Database.video_ids, Database.comment_ids,
           Database.playlist_ids, table_ok; simpl.
  - repeat constructor; simpl; intuition lia.
  - repeat constructor; simpl; intuition discriminate.
  - repeat constructor; simpl; intuition discriminate.
  - repeat constructor; simpl; intuition discriminate.
  - repeat split; repeat constructor; simpl; intuition lia.
  - repeat split; repeat constructor; simpl; intuition (discriminate || lia).
  - repeat split; repeat constructor; simpl; intuition lia.
  - intros x H. each_row H; simpl; tauto.
  - intros x H. each_row H; simpl; tauto.
  - intros x H. each_row H; simpl; tauto.
  - intros x H. each_row H; simpl; tauto.
  - intros x p H Hp. each_row H; simpl in Hp; try discriminate;
      inversion Hp; subst; simpl; tauto.
  - intros x H. each_row H; simpl; tauto.
  - intros x H. each_row H; simpl; tauto.
  - intros x H. each_row H; simpl; tauto.
  - intros x H. each_row H; simpl; tauto.
  - intros x H. each_row H; simpl; tauto.
Qed.

(** A save that the database takes keeps the database consistent. *)
Lemma save_video_ok (be : Backend) (adding : bool) (v : Video.t)
  (now : DateTime) (db db' : Database.t) :
  Database.ok db ->
  Database.save_video be adding v now db = inr db' ->
  Database.ok db'.
Proof.
  intros Hok Hsave. unfold Database.save_video in Hsave.
  destruct (Video.fits be v); simpl in Hsave; [| discriminate].
  destruct (adding && Database.mem_id (Video.id v) (Database.video_ids db));
    [discriminate |].
  destruct (Database.mem_user (Video.user v) (Database.user_ids db)) eqn:Hu;
    simpl in Hsave; [| discriminate].
  apply mem_user_In in Hu.
  inversion Hsave; subst; clear Hsave.
  destruct Hok as
    [Hupk Hvpk Hcpk Hppk Hq He Hs Hvu Hqv Hcv Hcu Hcp Hpu Hep Hev Hss Hsc].
  constructor; simpl;
    unfold Database.user_ids, Database.video_ids, Database.comment_ids,
           Database.playlist_ids in *; simpl; try assumption.
  - apply (save_table_facts (Database.videos db) v now Hvpk).
  - intros x Hx. apply in_save in Hx.
    destruct Hx as [Hx | [-> | ->]]; [now apply Hvu | exact Hu | exact Hu].
  - intros q Hq0. apply save_ids_incl. now apply Hqv.
  - intros c Hc. apply save_ids_incl. now apply Hcv.
  - intros e He0. apply save_ids_incl. now apply Hev.
Qed.

(** A caller's write to a stored row: load it, assign, save.  When the
    assignment leaves [id] and [user] alone and the result fits its
    columns, the database takes the row as assigned. *)
Lemma save_video_loaded (be : Backend) (db : Database.t) (v w : Video.t)
  (now : DateTime) :
  Database.ok db ->
  Database.find_video (Video.id v) db = Some v ->
  Video.id w = Video.id v -> Video.user w = Video.user v ->
  Video.fits be w = true ->
  exists db',
    Database.save_video be false w now db = inr db'
    /\ Database.find_video (Video.id v) db' = Some (Video.touch now w)
    /\ Database.users db' = Database.users db
    /\ (forall j, j <> Video.id v ->
          Database.find_video j db' = Database.find_video j db).
Proof.
  intros Hok Hget Hid Huser Hfits. unfold Database.save_video.
  rewrite Hfits. simpl.
  assert (Hu : Database.mem_user (Video.user w) (Database.user_ids db) = true).
  { apply mem_user_In. rewrite Huser.
    apply (Database.video_user db Hok). now apply (get_some_in (Video.id v)). }
  rewrite Hu. simpl. eexists. split; [reflexivity |].
  unfold Database.find_video in *. simpl.
  split; [| split; [reflexivity |]].
  - rewrite <- Hid. apply get_save. rewrite Hid.
    now apply (get_some_exists _ _ v).
  - intros j Hne. apply get_save_other. congruence.
Qed.

(** X5. [save()] and the primary key [id].  A new instance whose id is
    stored is not saved: the INSERT is refused with [IntegrityError] and
    the stored row stays.  A save that the database takes keeps the
    database consistent (no two rows under one id, every key naming a
    row), leaves the rows under other ids as they were, adds one row when
    the id was not stored and replaces the row, as many rows as before,
    when the instance was loaded from it. *)
Theorem save_keeps_the_primary_key
  (be : Backend) (db : Database.t) (adding : bool) (v : Video.t)
  (now : DateTime) :
  Database.ok db ->
  (In (Video.id v) (Database.video_ids db) ->
   (forall db', Database.save_video be true v now db <> inr db')
   /\ (Video.fits be v = true ->
       Database.save_video be true v now db = inl (Refused IntegrityError)))
  /\ (forall db', Database.save_video be adding v now db = inr db' ->
        Database.ok db'
        /\ (forall j, j <> Video.id v ->
              Database.find_video j db' = Database.find_video j db)
        /\ (Database.find_video (Video.id v) db = None ->
            Database.find_video (Video.id v) db'
            = Some (Video.stamp_created now v)
            /\ List.length (Database.videos db')
               = S (List.length (Database.videos db)))
        /\ (forall old, Database.find_video (Video.id v) db = Some old ->
            adding = false
            /\ Database.find_video (Video.id v) db'
               = Some (Video.touch now v)
            /\ List.length (Database.videos db')
               = List.length (Database.videos db))
        /\ Database.users db' = Database.users db
        /\ Database.video_qualities db' = Database.video_qualities db
        /\ Database.comments db' = Database.comments db
        /\ Database.playlists db' = Database.playlists db
        /\ Database.playlist_videos db' = Database.playlist_videos db
        /\ Database.subscriptions db' = Database.subscriptions db).
Proof.
  intros Hok. split.
  - intros Hin. apply mem_id_In in Hin. unfold Database.save_video.
    rewrite Hin. simpl.
    destruct (Video.fits be v); simpl; split;
      try discriminate; intros; reflexivity || discriminate.
  - intros db' Hsave.
    split; [exact (save_video_ok _ _ _ _ _ _ Hok Hsave) |].
    unfold Database.save_video in Hsave.
    destruct (Video.fits be v); simpl in Hsave; [| discriminate].
    destruct (adding && Database.mem_id (Video.id v) (Database.video_ids db))
      eqn:Hadd; [discriminate |].
    destruct (Database.mem_user (Video.user v) (Database.user_ids db));
      simpl in Hsave; [| discriminate].
    inversion Hsave; subst; clear Hsave.
    unfold Database.find_video. simpl.
    destruct (save_table_facts (Database.videos db) v now
                (Database.videos_pk db Hok)) as [_ [Hframe [Hnew Hold]]].
    split; [exact Hframe | split; [exact Hnew | split]].
    + intros old Hget. destruct (Hold old Hget) as [H1 H2].
      split; [| split; assumption].
      destruct adding; [| reflexivity].
      simpl in Hadd. apply mem_id_not_In in Hadd. exfalso. apply Hadd.
      unfold Database.video_ids. apply in_map_iff. exists old.
      split; [now apply (get_some_id _ (Database.videos db))
             | now apply (get_some_in (Video.id v))].
    + repeat split.
Qed.

Lemma save_keeps_the_primary_key_witness :
  Database.save_video sqlite3 true sample_video 1001 sample_processing
  = inl (Refused IntegrityError)
  /\ Database.find_video 1%N sample_processing = Some sample_processing_video.
Proof.
  split; [| reflexivity].
  apply (proj1 (save_keeps_the_primary_key sqlite3 sample_processing true
                  sample_video 1001 sample_processing_ok));
    [simpl; now left | reflexivity].
Defined.

(** ** The status column *)

Lemma full_clean_status (be : Backend) (users : list AutoId)
  (stored : Video.table) (adding : bool) (v : Video.t) :
  Video.full_clean be users stored adding v = true ->
  CharField_clean Video.status_field (Video.status v) = true.
Proof.
  unfold Video.full_clean. intros H.
  repeat (apply andb_true_iff in H; destruct H as [H ?]). assumption.
Qed.

(** C8, as stated, fails on the schema: [save()] runs no validator, so a
    status that is none of the four choices is stored as it is. *)
Lemma bogus_status_is_stored :
  ~ (forall (be : Backend) (adding : bool) (v : Video.t) (now : DateTime)
            (db db' : Database.t),
        Database.ok db ->
        (forall r, In r (Database.videos db) ->
                   In (Video.status r)
                      ["uploading"; "processing"; "ready"; "failed"]%string) ->
        Database.save_video be adding v now db = inr db' ->
        forall r, In r (Database.videos db') ->
                  In (Video.status r)
                     ["uploading"; "processing"; "ready"; "failed"]%string).
Proof.
  intros H.
  assert (H0 : forall r, In r (Database.videos sample_users) ->
                 In (Video.status r)
                    ["uploading"; "processing"; "ready"; "failed"]%string)
    by (intros r []).
  specialize (H sqlite3 true (Video.set_status "bogus" sample_video) 1000
                sample_users _ sample_users_ok H0 eq_refl
                (Video.stamp_created 1000 (Video.set_status "bogus" sample_video))
                (or_introl eq_refl)).
  simpl in H. intuition discriminate.
Qed.

(** C8, amended.  [Video.Status] declares exactly the four wire values,
    all different; a Video created without a status has 'uploading', one
    created with a member of [Video.Status] has the value of that member;
    [full_clean()] accepts a Video only if its status is one of the four,
    and the status is no obstacle for any of the four.  [save()] checks no
    choices: a write of any string that fits the column to the status of a
    stored row is stored as given. *)
Theorem status_choices_bind_validation_only :
  map fst Video.Status_choices
  = ["uploading"; "processing"; "ready"; "failed"]%string
  /\ NoDup (map fst Video.Status_choices)
  /\ (forall (new_id : UUID) (owner : AutoId) (ttl : string)
             (d : option string) (vis : option Video.Visibility)
             (now : DateTime),
         Video.status
           (Video.create new_id owner ttl
              {| Video.kw_description := d;
                 Video.kw_status := None;
                 Video.kw_visibility := vis |} now) = "uploading"%string)
  /\ (forall (new_id : UUID) (owner : AutoId) (ttl : string)
             (d : option string) (s : Video.Status)
             (vis : option Video.Visibility) (now : DateTime),
         Video.status
           (Video.create new_id owner ttl
              {| Video.kw_description := d;
                 Video.kw_status := Some s;
                 Video.kw_visibility := vis |} now) = Video.Status_value s)
  /\ (forall (be : Backend) (adding : bool) (v : Video.t) (db : Database.t),
         Database.full_clean_video be adding v db = true ->
         In (Video.status v)
            ["uploading"; "processing"; "ready"; "failed"]%string)
  /\ (forall (be : Backend) (adding : bool) (v : Video.t) (db : Database.t)
             (s : Video.Status),
         Database.full_clean_video be adding v db = true ->
         Database.full_clean_video be adding (Video.set_status s v) db = true)
  /\ (forall (be : Backend) (db : Database.t) (v : Video.t) (x : string)
             (now : DateTime),
         Database.ok db ->
         Database.find_video (Video.id v) db = Some v ->
         Video.fits be (Video.set_status x v) = true ->
         exists db',
           Database.save_video be false (Video.set_status x v) now db = inr db'
           /\ Database.find_video (Video.id v) db'
              = Some (Video.touch now (Video.set_status x v))
           /\ Video.status (Video.touch now (Video.set_status x v)) = x).
Proof.
  split; [reflexivity | split; [| split; [| split; [| split; [| split]]]]].
  - simpl. repeat constructor; simpl; intuition discriminate.
  - intros. reflexivity.
  - intros. reflexivity.
  - intros be adding v db H. apply status_field_clean_iff.
    exact (full_clean_status _ _ _ _ _ H).
  - intros be adding v db s H.
    unfold Database.full_clean_video, Video.full_clean in *.
    cbn [Video.set_status Video.id Video.user Video.title Video.description
         Video.thumbnail Video.original_file Video.width Video.height
         Video.file_size Video.status Video.visibility
         Video.processing_progress Video.error_message Video.comments_count].
    replace (CharField_clean Video.status_field (Video.Status_value s))
      with true by (destruct s; reflexivity).
    rewrite (full_clean_status _ _ _ _ _ H) in H. exact H.
  - intros be db v x now Hok Hget Hfits.
    destruct (save_video_loaded be db v (Video.set_status x v) now Hok Hget
                eq_refl eq_refl Hfits) as [db' [Hs [Hf _]]].
    exists db'. repeat split; assumption.
Qed.

(** ** The progress column *)

Lemma full_clean_set_progress (be : Backend) (users : list AutoId)
  (stored stored' : Video.table) (adding : bool) (v : Video.t) (p : Z) :
  Video.full_clean be users stored adding v = true ->
  in_range (integer_field_range be IntegerType) p = true ->
  (adding = true -> stored' = stored) ->
  Video.full_clean be users stored' adding (Video.set_processing_progress p v)
  = true.
Proof.
  unfold Video.full_clean. intros H Hp Hst.
  cbn [Video.set_processing_progress Video.id Video.user Video.title
       Video.description Video.thumbnail Video.original_file Video.width
       Video.height Video.file_size Video.status Video.visibility
       Video.processing_progress Video.error_message Video.comments_count].
  assert (Hc : IntegerField_clean be Video.processing_progress_field p = true).
  { unfold IntegerField_clean. simpl. now rewrite Hp. }
  assert (H3 : IntegerField_clean be Video.processing_progress_field
                 (Video.processing_progress v) = true).
  { repeat (apply andb_true_iff in H; destruct H as [H ?]). assumption. }
  rewrite Hc. rewrite H3 in H.
  destruct adding.
  - rewrite (Hst eq_refl). exact H.
  - cbn [negb orb] in *. exact H.
Qed.





(** C7 at a concrete input.  The column documented as "(0-100)" lists no
    validator: on either backend the new video of the sample passes
    [full_clean()] with its progress at 150 and at -5 as it does at 0, and
    [save()] stores both values; in general a progress passes validation
    whenever it is within the range of the column type. *)
Theorem processing_progress_range_is_not_validated :
  int_validators Video.processing_progress_field = []
  /\ (forall be : Backend, be = sqlite3 \/ be = postgresql ->
        Database.full_clean_video be true sample_video sample_users = true
        /\ Database.full_clean_video be true
             (Video.set_processing_progress 150 sample_video) sample_users
           = true
        /\ Database.full_clean_video be true
             (Video.set_processing_progress (-5) sample_video) sample_users
           = true
        /\ (exists db',
              Database.save_video be true
                (Video.set_processing_progress 150 sample_video) 1000
                sample_users = inr db'
              /\ option_map Video.processing_progress
                   (Database.find_video 1%N db') = Some 150)
        /\ (exists db',
              Database.save_video be true
                (Video.set_processing_progress (-5) sample_video) 1000
                sample_users = inr db'
              /\ option_map Video.processing_progress
                   (Database.find_video 1%N db') = Some (-5)))
  /\ (forall (be : Backend) (adding : bool) (v : Video.t) (db : Database.t)
             (p : Z),
         Database.full_clean_video be adding v db = true ->
         in_range (integer_field_range be IntegerType) p = true ->
         Database.full_clean_video be adding
           (Video.set_processing_progress p v) db = true).
Proof.
  split; [reflexivity | split].
  - intros be [-> | ->];
      (split; [reflexivity | split; [reflexivity | split; [reflexivity |
        split; eexists; split; reflexivity]]]).
  - intros be adding v db p H Hp.
    apply (full_clean_set_progress be _ (Database.videos db) _ adding v p H Hp).
    reflexivity.
Qed.
